(** * Japanese Gentle Converter: the rule-based conversion pipeline

    A shallow embedding of the deterministic pipeline of the converter
    (context analyzer, word converter, sentence generator, conversion
    engine, quality assessment and feedback learning) together with the
    properties its specification states about it.

    Conventions of the embedding.
    - A JavaScript string is the list of its UTF-16 code units
      ([list N]); string literals of the source are written [js "..."],
      which decodes the UTF-8 bytes of the literal.
    - A JavaScript number is an integer ([Z]) where the source only
      counts, and an exact rational ([Q]) where it holds a decimal
      fraction; the rounding of IEEE doubles is not modelled.
    - [undefined] is [None].
    - [Math.random()] and [new Date()] are explicit inputs. *)

From Stdlib Require Import QArith Qminmax Qround Lia Lqa.
From stdpp Require Import prelude strings gmap.
Close Scope Q_scope.

(** ** JavaScript strings and the regular expressions of the source *)

Module JS.

(** UTF-8 decoding of a literal into UTF-16 code units. *)
Fixpoint decode (bs : list N) : list N :=
  match bs with
  | [] => []
  | b0 :: r0 =>
    if (b0 <? 128)%N then b0 :: decode r0
    else match r0 with
    | [] => []
    | b1 :: r1 =>
      if (b0 <? 224)%N then ((b0 mod 32) * 64 + b1 mod 64)%N :: decode r1
      else match r1 with
      | [] => []
      | b2 :: r2 =>
        if (b0 <? 240)%N
        then ((b0 mod 16) * 4096 + (b1 mod 64) * 64 + b2 mod 64)%N :: decode r2
        else match r2 with
        | [] => []
        | b3 :: r3 =>
          let cp := ((b0 mod 8) * 262144 + (b1 mod 64) * 4096
                     + (b2 mod 64) * 64 + b3 mod 64 - 65536)%N in
          (55296 + cp / 1024)%N :: (56320 + cp mod 1024)%N :: decode r3
        end
      end
    end
  end.

Definition js (s : string) : list N :=
  decode (map Ascii.N_of_ascii (String.list_ascii_of_string s)).

(** [a === b] on strings. *)
Fixpoint eqb (a b : list N) : bool :=
  match a, b with
  | [], [] => true
  | x :: a', y :: b' => (x =? y)%N && eqb a' b'
  | _, _ => false
  end.

(** [t.startsWith(p)]. *)
Fixpoint startsWith (p t : list N) : bool :=
  match p, t with
  | [], _ => true
  | _ :: _, [] => false
  | x :: p', y :: t' => (x =? y)%N && startsWith p' t'
  end.

(** [t.endsWith(s)]. *)
Definition endsWith (t s : list N) : bool := startsWith (rev s) (rev t).

(** [t.includes(p)]; also [/p/.test(t)] for a literal pattern [p]. *)
Fixpoint includes (t p : list N) : bool :=
  startsWith p t ||
  match t with
  | [] => false
  | _ :: t' => includes t' p
  end.

(** [/a|b|c/.test(t)]: some alternative occurs. *)
Definition testAny (alts : list (list N)) (t : list N) : bool :=
  existsb (includes t) alts.

(** [(t.match(/p/) || []).length] for a literal pattern without the [g]
    flag and without groups: the match array holds the match alone. *)
Definition matchLength (p t : list N) : Z := if includes t p then 1 else 0.

(** [t.replace(new RegExp(p, 'g'), r)] for a literal, non-empty [p]: the
    scan replaces the leftmost occurrence and resumes after it; [skip]
    counts the code units of the current match still to be dropped. *)
Fixpoint replaceFrom (p r : list N) (skip : nat) (t : list N) : list N :=
  match t with
  | [] => []
  | c :: t' =>
    match skip with
    | S k => replaceFrom p r k t'
    | O => if startsWith p t then r ++ replaceFrom p r (length p - 1) t'
           else c :: replaceFrom p r 0 t'
    end
  end.

Definition replaceAll (p r t : list N) : list N := replaceFrom p r 0 t.

(** [t.match(new RegExp(p, 'g')).length]: the non-overlapping matches. *)
Fixpoint countFrom (p : list N) (skip : nat) (t : list N) : Z :=
  match t with
  | [] => 0
  | _ :: t' =>
    match skip with
    | S k => countFrom p k t'
    | O => if startsWith p t then 1 + countFrom p (length p - 1) t'
           else countFrom p 0 t'
    end
  end.

Definition countMatches (p t : list N) : Z := countFrom p 0 t.

(** The first alternative of [/a|b|c/] that matches at the head of [t]. *)
Fixpoint firstAlt (alts : list (list N)) (t : list N) : option (list N) :=
  match alts with
  | [] => None
  | a :: rest => if startsWith a t then Some a else firstAlt rest t
  end.

(** [t.replace(/a|b|c/g, r)] for non-empty literal alternatives. *)
Fixpoint replaceAltFrom (alts : list (list N)) (r : list N) (skip : nat)
    (t : list N) : list N :=
  match t with
  | [] => []
  | c :: t' =>
    match skip with
    | S k => replaceAltFrom alts r k t'
    | O =>
      match firstAlt alts t with
      | Some a => r ++ replaceAltFrom alts r (length a - 1) t'
      | None => c :: replaceAltFrom alts r 0 t'
      end
    end
  end.

Definition replaceAllAlt (alts : list (list N)) (r t : list N) : list N :=
  replaceAltFrom alts r 0 t.

(** [t.match(/a|b|c/g) || []]: the matched alternatives, in order. *)
Fixpoint matchAltFrom (alts : list (list N)) (skip : nat) (t : list N)
    : list (list N) :=
  match t with
  | [] => []
  | _ :: t' =>
    match skip with
    | S k => matchAltFrom alts k t'
    | O =>
      match firstAlt alts t with
      | Some a => a :: matchAltFrom alts (length a - 1) t'
      | None => matchAltFrom alts 0 t'
      end
    end
  end.

Definition matchAllAlt (alts : list (list N)) (t : list N) : list (list N) :=
  matchAltFrom alts 0 t.

(** Line terminators: the code units [.] does not match. *)
Definition isLineTerminator (c : N) : bool :=
  (c =? 10)%N || (c =? 13)%N || (c =? 8232)%N || (c =? 8233)%N.

(** White space: the code units of [\s], which [trim] strips. *)
Definition isWhiteSpace (c : N) : bool :=
  ((9 <=? c) && (c <=? 13))%N || (c =? 32)%N || (c =? 160)%N
  || (c =? 5760)%N || ((8192 <=? c) && (c <=? 8202))%N
  || (c =? 8232)%N || (c =? 8233)%N || (c =? 8239)%N || (c =? 8287)%N
  || (c =? 12288)%N || (c =? 65279)%N.

Fixpoint trimStart (t : list N) : list N :=
  match t with
  | [] => []
  | c :: t' => if isWhiteSpace c then trimStart t' else t
  end.

(** [t.trim()]. *)
Definition trim (t : list N) : list N := rev (trimStart (rev (trimStart t))).

(** [t.replace(/\s+/g, ' ')]: every run of white space becomes one space. *)
Fixpoint collapseSpaces (inRun : bool) (t : list N) : list N :=
  match t with
  | [] => []
  | c :: t' =>
    if isWhiteSpace c
    then (if inRun then collapseSpaces true t' else 32%N :: collapseSpaces true t')
    else c :: collapseSpaces false t'
  end.

(** [parts.join(sep)]. *)
Fixpoint join (sep : list N) (parts : list (list N)) : list N :=
  match parts with
  | [] => []
  | [p] => p
  | p :: rest => p ++ sep ++ join sep rest
  end.

(** The greedy [(.+)] followed by the literal [lit], tried at the head of
    [t]: the length of the longest non-empty run of non-terminators after
    which [lit] follows (the longest first, as backtracking finds it). *)
Fixpoint dotPlusThen (lit : list N) (t : list N) : option nat :=
  match t with
  | [] => None
  | c :: t' =>
    if isLineTerminator c then None
    else match dotPlusThen lit t' with
    | Some n => Some (S n)
    | None => if startsWith lit t' then Some 1%nat else None
    end
  end.

(** [/a.*b.*c/.test(t)] for literals: [dotStarThen lit k t] holds when a
    run of non-terminators at the head of [t] is followed by [lit] and the
    rest satisfies [k]. *)
Fixpoint dotStarThen (lit : list N) (k : list N -> bool) (t : list N) : bool :=
  (startsWith lit t && k (drop (length lit) t)) ||
  match t with
  | [] => false
  | c :: t' => if isLineTerminator c then false else dotStarThen lit k t'
  end.

Fixpoint testFrom (lit : list N) (k : list N -> bool) (t : list N) : bool :=
  (startsWith lit t && k (drop (length lit) t)) ||
  match t with
  | [] => false
  | _ :: t' => testFrom lit k t'
  end.

(** Decimal digits of a non-negative integer, as [String(n)] prints it. *)
Fixpoint digitsFuel (fuel : nat) (n : N) (acc : list N) : list N :=
  match fuel with
  | O => acc
  | S f =>
    let acc' := (48 + n mod 10)%N :: acc in
    if (n <? 10)%N then acc' else digitsFuel f (n / 10)%N acc'
  end.

Definition digits (n : N) : list N := digitsFuel (S (N.to_nat (N.log2 n))) n [].

End JS.

Import JS.

(** ** ContextAnalyzer *)

Module ContextAnalyzer.

(** [this.intentPatterns], in the enumeration order of its keys. *)
Definition intentPatterns : list (list N * list (list N)) :=
  [ (js "request",
      map js ["して"; "してください"; "お願い"; "頼む"; "やって"; "確認"; "チェック";
              "見て"; "教えて"; "送って"; "作って"; "修正"; "対応"; "処理"]);
    (js "question",
      map js ["?"; "？"; "どう"; "いかが"; "どこ"; "いつ"; "なぜ"; "なに"; "どれ";
              "大丈夫"; "可能"; "できる"; "わかる"; "知って"]);
    (js "report",
      map js ["報告"; "お知らせ"; "完了"; "終了"; "済み"; "できました"; "しました";
              "進捗"; "状況"; "結果"; "について"; "件で"]);
    (js "apology",
      map js ["すみません"; "申し訳"; "ごめん"; "失礼"; "遅れ"; "ミス"; "間違い";
              "忘れ"; "できません"; "困って"]);
    (js "greeting",
      map js ["おはよう"; "こんにちは"; "こんばんは"; "お疲れ"; "失礼します";
              "よろしく"; "ありがとう"; "感謝"]);
    (js "complaint",
      map js ["問題"; "困る"; "おかしい"; "変"; "ダメ"; "不具合"; "エラー";
              "動かない"; "できない"; "遅い"]) ].

Definition urgencyIndicators : list (list N * list (list N)) :=
  [ (js "urgent",
      map js ["急"; "緊急"; "至急"; "ASAP"; "今すぐ"; "すぐに"; "早く"; "急いで";
              "待って"; "ヤバい"; "マジで"; "本当に"; "大変"; "危険"]);
    (js "normal",
      map js ["よろしく"; "お願い"; "いつでも"; "可能でしたら"; "お時間"]);
    (js "relaxed",
      map js ["ゆっくり"; "のんびり"; "空いてる時"; "余裕"; "後で"; "今度";
              "いつか"; "そのうち"]) ].

Definition relationshipIndicators : list (list N * list (list N)) :=
  [ (js "superior",
      map js ["部長"; "課長"; "社長"; "お疲れ様"; "恐れ入り"; "失礼"; "申し訳";
              "いつもお世話"; "ありがとうございます"]);
    (js "colleague",
      map js ["さん"; "君"; "よろしく"; "一緒に"; "手伝"; "相談"; "どう思う"]);
    (js "subordinate",
      map js ["頼む"; "やって"; "確認して"; "急いで"; "大丈夫？"]);
    (js "customer",
      map js ["お客"; "ご利用"; "サービス"; "お問い合わせ"; "ご質問"; "ご不明"]) ].

Definition casualWordList : list (list N) :=
  map js ["アプデ"; "バグ"; "レス"; "リスケ"; "ググる"; "ヤバい"; "マジで";
          "やって"; "して"; "ダメ"; "オッケー"; "NG"; "OK"; "チェック"].

(** The inner loop of [analyzeIntent] and [estimateRelationship]:
    [scores[k] += (text.match(pattern) || []).length] over the patterns. *)
Definition scoreOf (patterns : list (list N)) (text : list N) : Z :=
  fold_left (fun acc p => acc + matchLength p text)%Z patterns 0%Z.

Definition scoresOf (table : list (list N * list (list N))) (text : list N)
    : list (list N * Z) :=
  map (fun kp => (fst kp, scoreOf (snd kp) text)) table.

(** [Math.max(...values)]; [None] is the [-Infinity] of the empty list. *)
Definition Math_max (values : list Z) : option Z :=
  match values with
  | [] => None
  | v :: rest => Some (fold_left Z.max rest v)
  end.

(** The tail shared by [analyzeIntent] and [estimateRelationship]:
    ['unknown'] when the maximum is 0, else the first key that reaches it
    ([None] is the [undefined] of a [find] that finds nothing). *)
Definition pickHighest (scores : list (list N * Z)) : option (list N) :=
  match Math_max (map snd scores) with
  | Some maxScore =>
    if (maxScore =? 0)%Z then Some (js "unknown")
    else fst <$> find (fun kv => (snd kv =? maxScore)%Z) scores
  | None => None
  end.

Definition analyzeIntent (text : list N) : option (list N) :=
  pickHighest (scoresOf intentPatterns text).

Definition detectUrgency (text : list N) : list N :=
  match find (fun kp => existsb (includes text) (snd kp)) urgencyIndicators with
  | Some kp => fst kp
  | None => js "normal"
  end.

Definition estimateRelationship (text : list N) : option (list N) :=
  pickHighest (scoresOf relationshipIndicators text).

Definition businessKeywords : list (list N) :=
  map js ["会議"; "資料"; "企画"; "プロジェクト"; "売上"; "予算"; "契約";
          "クライアント"; "顧客"; "営業"; "部署"; "チーム"].

Definition technicalKeywords : list (list N) :=
  map js ["システム"; "アプリ"; "サーバー"; "データベース"; "API"; "バグ";
          "デプロイ"; "テスト"; "実装"; "設計"].

Definition casualKeywords : list (list N) :=
  map js ["飲み"; "ランチ"; "休憩"; "趣味"; "映画"; "ゲーム"; "旅行";
          "週末"; "プライベート"].

Definition detectSituation (text : list N) : list N :=
  if existsb (includes text) businessKeywords then js "business"
  else if existsb (includes text) technicalKeywords then js "technical"
  else if existsb (includes text) casualKeywords then js "casual"
  else js "general".

Definition formalIndicators : list (list N) :=
  map js ["です"; "ます"; "ございます"; "いただき"; "いたします"; "申し上げ";
          "恐れ入り"; "失礼"; "お世話になっております"].

Definition casualIndicators : list (list N) :=
  map js ["だよ"; "だね"; "じゃん"; "って"; "やつ"; "すげー"; "マジで";
          "ヤバい"; "オッケー"].

Definition formalityScore (text : list N) : Z :=
  let s := fold_left (fun acc p => acc + matchLength p text * 2)%Z
             formalIndicators 0%Z in
  fold_left (fun acc p => acc - matchLength p text * 3)%Z casualIndicators s.

Definition assessFormality (text : list N) : list N :=
  let formalityScore := formalityScore text in
  if (3 <=? formalityScore)%Z then js "very-formal"
  else if (1 <=? formalityScore)%Z then js "formal"
  else if (-2 <=? formalityScore)%Z then js "neutral"
  else if (-5 <=? formalityScore)%Z then js "casual"
  else js "very-casual".

Definition timePatterns : list (list N * list (list N)) :=
  [ (js "morning", map js ["おはよう"; "朝"; "午前"; "今朝"]);
    (js "afternoon", map js ["こんにちは"; "午後"; "昼"; "ランチ"]);
    (js "evening", map js ["こんばんは"; "夕方"; "夜"; "お疲れ様"]);
    (js "general", map js ["今日"; "明日"; "昨日"; "今週"; "来週"]) ].

(** [hour] is [new Date().getHours()], read when no pattern matches. *)
Definition detectTimeContext (hour : Z) (text : list N) : list N :=
  match find (fun kp => existsb (includes text) (snd kp)) timePatterns with
  | Some kp => fst kp
  | None =>
    if (hour <? 12)%Z then js "morning"
    else if (hour <? 18)%Z then js "afternoon"
    else js "evening"
  end.

Definition findCasualWords (text : list N) : list (list N) :=
  filter (fun word => includes text word = true) casualWordList.

Record Improvement := {
  needsImprovementFlag : bool;
  issues : list (list N);
  severity : list N
}.

(** [/^[やして]/.test(text)]. *)
Definition startsWithDirectCommand (text : list N) : bool :=
  match text with
  | [] => false
  | c :: _ => existsb (fun d => startsWith d [c]) (map js ["や"; "し"; "て"])
  end.

Definition needsImprovement (text : list N) : Improvement :=
  let issues :=
    (if (0 <? length (findCasualWords text))%nat
     then [js "casual_language"] else [])
    ++ (if negb (includes text (js "お疲れ")) && negb (includes text (js "よろしく"))
           && negb (includes text (js "ありがとう"))
           && negb (includes text (js "すみません"))
        then [js "lacks_politeness_markers"] else [])
    ++ (if (length text <? 10)%nat then [js "too_brief"] else [])
    ++ (if startsWithDirectCommand text then [js "too_direct"] else []) in
  {| needsImprovementFlag := (0 <? length issues)%nat;
     issues := issues;
     severity := if (3 <=? length issues)%nat then js "high"
                 else if (1 <=? length issues)%nat then js "medium"
                 else js "low" |}.

Record Context := {
  intent : option (list N);
  urgency : list N;
  relationship : option (list N);
  situation : list N;
  formalityLevel : list N;
  timeContext : list N;
  improvement : Improvement;
  casualWords : list (list N)
}.

Definition analyzeContext (hour : Z) (text : list N) : Context :=
  {| intent := analyzeIntent text;
     urgency := detectUrgency text;
     relationship := estimateRelationship text;
     situation := detectSituation text;
     formalityLevel := assessFormality text;
     timeContext := detectTimeContext hour text;
     improvement := needsImprovement text;
     casualWords := findCasualWords text |}.

Definition generateSuggestions (context : Context) : list (list N) :=
  let has i := existsb (eqb (js i)) (issues (improvement context)) in
  (if has "casual_language"
   then [js "カジュアルな表現をより丁寧な言葉に変換することをお勧めします"] else [])
  ++ (if has "lacks_politeness_markers"
      then [js "挨拶や締めの言葉を追加すると、より丁寧な印象になります"] else [])
  ++ (if has "too_brief"
      then [js "もう少し詳しい説明を加えると、相手に気遣いが伝わります"] else [])
  ++ (if has "too_direct"
      then [js "直接的な表現を柔らかい依頼形に変更することをお勧めします"] else []).

End ContextAnalyzer.

(** ** WordConverter *)

Module WordConverter.
Import ContextAnalyzer.

(** An object literal used as an ordered table: the entries in insertion
    order. *)
Definition jsPairs (l : list (string * string)) : list (list N * list N) :=
  map (fun kv => (js (fst kv), js (snd kv))) l.

Definition words : list (list N * list N) := jsPairs
  [ ("アプデ", "アップデート"); ("バグ", "不具合"); ("レス", "お返事");
    ("リスケ", "スケジュール変更"); ("ググる", "検索する");
    ("ヤバい", "大変な状況"); ("マジで", "非常に");
    ("オッケー", "承知いたしました"); ("NG", "お受けできません");
    ("チェック", "確認"); ("フィックス", "修正"); ("デバッグ", "不具合調査");
    ("リリース", "公開"); ("デプロイ", "配置"); ("タスク", "作業");
    ("アサイン", "担当指定"); ("アポ", "お約束"); ("ミーティング", "会議");
    ("プレゼン", "発表"); ("レビュー", "確認"); ("フィードバック", "ご意見");
    ("デッドライン", "期限"); ("スケジュール", "予定"); ("ステータス", "状況");
    ("イシュー", "課題"); ("リクエスト", "ご依頼"); ("レスポンス", "お返事");
    ("サポート", "支援"); ("ヘルプ", "お手伝い") ].

Definition phrases : list (list N * list N) := jsPairs
  [ ("やって", "やっていただけませんか");
    ("して", "していただけませんか");
    ("確認して", "ご確認いただけますでしょうか");
    ("チェックして", "お確かめいただけますでしょうか");
    ("教えて", "教えていただけませんか");
    ("送って", "お送りいただけませんか");
    ("作って", "作成していただけませんか");
    ("修正して", "修正していただけませんか");
    ("対応して", "ご対応いただけませんか");
    ("見て", "ご覧いただけませんか");
    ("読んで", "お読みいただけませんか");
    ("連絡して", "ご連絡いただけませんか");
    ("報告して", "ご報告いただけませんか");
    ("手伝って", "お手伝いいただけませんか");
    ("待って", "お待ちいただけませんか");
    ("変更して", "変更していただけませんか");
    ("更新して", "更新していただけませんか") ].

Definition contextualBusiness : list (list N * list N) := jsPairs
  [ ("やって", "お忙しい中恐縮ですが、対応していただけますでしょうか");
    ("確認して", "お時間のある際に、ご確認いただけると助かります");
    ("教えて", "もしよろしければ、教えていただけませんでしょうか") ].

Definition contextualUrgent : list (list N * list N) := jsPairs
  [ ("やって", "急ぎで恐縮ですが、対応していただけませんでしょうか");
    ("確認して", "至急確認していただけますでしょうか");
    ("教えて", "緊急でお聞きしたいことがあるのですが") ].

Definition contextualSuperior : list (list N * list N) := jsPairs
  [ ("やって", "お忙しい中申し訳ございませんが、対応していただけますでしょうか");
    ("確認して", "恐れ入りますが、ご確認いただけますでしょうか");
    ("教えて", "不躾な質問で申し訳ございませんが、教えていただけませんでしょうか") ].

(** One entry of the conversion log; [count] and [context] are absent
    ([None]) on the entries that do not set them. *)
Record Conversion := {
  ctype : list N;
  original : list N;
  converted : list N;
  count : option Z;
  reason : list N;
  context : option (list N)
}.

(** [obj[k] = v] on an ordered table: an existing key keeps its place and
    takes the new value, a new key goes last. *)
Fixpoint assign (obj : list (list N * list N)) (k v : list N)
    : list (list N * list N) :=
  match obj with
  | [] => [(k, v)]
  | (k', v') :: rest =>
    if eqb k' k then (k', v) :: rest else (k', v') :: assign rest k v
  end.

(** The object spread [{ ...a, ...b }]. *)
Definition spread (a b : list (list N * list N)) : list (list N * list N) :=
  fold_left (fun obj kv => assign obj (fst kv) (snd kv)) b a.

(** [obj[k]]. *)
Definition get (obj : list (list N * list N)) (k : list N) : option (list N) :=
  snd <$> find (fun kv => eqb (fst kv) k) obj.

(** The body of the loop of [convertWords] for one dictionary entry. *)
Definition convertWord (acc : list N * list Conversion) (entry : list N * list N)
    : list N * list Conversion :=
  let '(result, conversions) := acc in
  let '(casual, polite) := entry in
  if includes result casual
  then (replaceAll casual polite result,
        conversions ++ [ {| ctype := js "word"; original := casual;
                            converted := polite;
                            count := Some (countMatches casual result);
                            reason := js "カジュアルな表現を丁寧な言葉に変換";
                            context := None |} ])
  else acc.

Definition convertWords (text : list N) (conversions : list Conversion)
    : list N * list Conversion :=
  fold_left convertWord words (text, conversions).

(** The phrase set [convertPhrases] chooses; an absent context is [None]. *)
Definition phraseSetFor (context : option Context) : list (list N * list N) :=
  let phraseSet := phrases in
  let phraseSet :=
    match context with
    | Some c => if eqb (situation c) (js "business")
                then spread phraseSet contextualBusiness else phraseSet
    | None => phraseSet
    end in
  let phraseSet :=
    match context with
    | Some c => if eqb (urgency c) (js "urgent")
                then spread phraseSet contextualUrgent else phraseSet
    | None => phraseSet
    end in
  match context with
  | Some c => match relationship c with
              | Some r => if eqb r (js "superior")
                          then spread phraseSet contextualSuperior else phraseSet
              | None => phraseSet
              end
  | None => phraseSet
  end.

(** [`${context.situation || ''} / ${context.urgency || ''} / ${context.relationship || ''}`] *)
Definition contextLabel (context : option Context) : list N :=
  match context with
  | Some c => situation c ++ js " / " ++ urgency c ++ js " / "
              ++ default [] (relationship c)
  | None => []
  end.

Definition convertPhrase (context : option Context)
    (acc : list N * list Conversion) (entry : list N * list N)
    : list N * list Conversion :=
  let '(result, conversions) := acc in
  let '(casual, polite) := entry in
  if includes result casual
  then (replaceAll casual polite result,
        conversions ++ [ {| ctype := js "phrase"; original := casual;
                            converted := polite;
                            count := Some (countMatches casual result);
                            reason := js "直接的な表現を丁寧な依頼形に変換";
                            context := Some (contextLabel context) |} ])
  else acc.

Definition convertPhrases (text : list N) (context : option Context)
    (conversions : list Conversion) : list N * list Conversion :=
  fold_left (convertPhrase context) (phraseSetFor context) (text, conversions).

(** [result.replace(regex, callback)] for a global regex: [matchAt] gives
    the length of the match at the head of the text, [callback] maps the
    matched text to its replacement and the log entry it pushes. *)
Fixpoint rewriteFrom (matchAt : list N -> option nat)
    (callback : list N -> list N * list Conversion) (skip : nat) (t : list N)
    : list N * list Conversion :=
  match t with
  | [] => ([], [])
  | c :: t' =>
    match skip with
    | S k => rewriteFrom matchAt callback k t'
    | O =>
      match matchAt t with
      | Some n =>
        let '(r, pushed) := callback (take n t) in
        let '(out, log) := rewriteFrom matchAt callback (n - 1) t' in
        (r ++ out, pushed ++ log)
      | None =>
        let '(out, log) := rewriteFrom matchAt callback 0 t' in
        (c :: out, log)
      end
    end
  end.

Definition patternEntry (m polite why : list N) : Conversion :=
  {| ctype := js "pattern"; original := m; converted := polite;
     count := None; reason := why; context := None |}.

(** [/(.+)lit/g] rewritten to [`${content}lit'`]. *)
Definition rewriteEnding (lit lit' why : list N) (acc : list N * list Conversion)
    : list N * list Conversion :=
  let '(out, log) :=
    rewriteFrom
      (fun t => (fun n => (n + length lit)%nat) <$> dotPlusThen lit t)
      (fun m => let polite := take (length m - length lit) m ++ lit' in
                (polite, [patternEntry m polite why]))
      0 (fst acc) in
  (out, snd acc ++ log).

(** [/なんで(.+)？/g] rewritten to [`なぜ${content}のでしょうか？`]. *)
Definition rewriteWhy (acc : list N * list Conversion) : list N * list Conversion :=
  let pre := js "なんで" in
  let post := js "？" in
  let '(out, log) :=
    rewriteFrom
      (fun t => if startsWith pre t
                then (fun n => (length pre + n + length post)%nat)
                       <$> dotPlusThen post (drop (length pre) t)
                else None)
      (fun m =>
         let content := take (length m - length pre - length post)
                             (drop (length pre) m) in
         let polite := js "なぜ" ++ content ++ js "のでしょうか？" in
         (polite, [patternEntry m polite (js "カジュアルな質問を丁寧な疑問文に変換")]))
      0 (fst acc) in
  (out, snd acc ++ log).

(** The character class [[ぁ-んァ-ヶー]]. *)
Definition isKana (c : N) : bool :=
  ((12353 <=? c) && (c <=? 12435))%N || ((12449 <=? c) && (c <=? 12534))%N
  || (c =? 12540)%N.

(** [/^([ぁ-んァ-ヶー]+)$/g]: without the [m] flag the anchors are the ends
    of the whole text. *)
Definition rewriteCommand (acc : list N * list Conversion)
    : list N * list Conversion :=
  let '(result, conversions) := acc in
  if negb (eqb result []) && forallb isKana result
  then if endsWith result (js "して") || endsWith result (js "やって")
       then acc
       else let polite := result ++ js "をお願いします" in
            (polite, conversions ++ [patternEntry result polite
                                      (js "簡潔すぎる表現に丁寧な依頼形を追加")])
  else acc.

Definition handleSpecialPatterns (text : list N) (context : option Context)
    (conversions : list Conversion) : list N * list Conversion :=
  let acc := (text, conversions) in
  let acc := rewriteEnding (js "だっけ？") (js "でしたでしょうか？")
               (js "カジュアルな疑問文を丁寧な表現に変換") acc in
  let acc := rewriteEnding (js "じゃん") (js "ですね")
               (js "カジュアルな文末を丁寧語に変換") acc in
  let acc := rewriteEnding (js "だよね") (js "ですよね")
               (js "カジュアルな同意表現を丁寧語に変換") acc in
  let acc := rewriteEnding (js "って言って") (js "とお伝えください")
               (js "カジュアルな伝言表現を丁寧語に変換") acc in
  let acc := rewriteWhy acc in
  rewriteCommand acc.

Record Converted := {
  text : list N;
  conversions : list Conversion;
  originalLength : nat;
  convertedLength : nat
}.

Definition convertText (text : list N) (context : option Context) : Converted :=
  let '(convertedText, conversions) := convertWords text [] in
  let '(convertedText, conversions) :=
    convertPhrases convertedText context conversions in
  let '(convertedText, conversions) :=
    handleSpecialPatterns convertedText context conversions in
  {| text := convertedText; conversions := conversions;
     originalLength := length text; convertedLength := length convertedText |}.

End WordConverter.

(** ** Exceptions *)

Module Exn.

(** What a step of the pipeline yields: a value, or a thrown [Error]. *)
Record Error := { errorMessage : list N }.

Inductive Outcome (A : Type) : Type :=
| Return (a : A)
| Throw (e : Error).
Arguments Return {A} a.
Arguments Throw {A} e.

#[export] Instance outcome_ret : MRet Outcome := fun A a => Return a.
#[export] Instance outcome_bind : MBind Outcome :=
  fun A B f m => match m with Return a => f a | Throw e => Throw e end.

(** [try { body } catch (error) { handler(error) }]. *)
Definition tryCatch {A} (body : Outcome A) (handler : Error -> Outcome A)
    : Outcome A :=
  match body with
  | Return a => Return a
  | Throw e => handler e
  end.

End Exn.

(** ** The random source

    [Math.random()] is an explicit stream of draws: the n-th call returns
    the n-th draw scaled into the interval from 0 (included) to 1
    (excluded). *)

Module Random.

Record Source := { draws : nat -> N; cursor : nat }.

(** A computation that consumes draws. *)
Definition Gen (A : Type) : Type := Source -> A * Source.

#[export] Instance gen_ret : MRet Gen := fun A x s => (x, s).
#[export] Instance gen_bind : MBind Gen :=
  fun A B f m s => let '(a, s') := m s in f a s'.

Definition resolution : positive := 9007199254740992.

Definition Math_random : Gen Q :=
  fun s => (Qmake (Z.of_N (draws s (cursor s) mod Npos resolution)) resolution,
            {| draws := draws s; cursor := S (cursor s) |}).

(** [array[Math.floor(Math.random() * array.length)]]. *)
Definition getRandomElement {A} (array : list A) : Gen (option A) :=
  r ← Math_random;
  mret (array !! Z.to_nat (Qfloor (r * inject_Z (Z.of_nat (length array))))).

End Random.

(** ** SentenceGenerator *)

Module SentenceGenerator.
Import ContextAnalyzer Random.

Definition table (l : list (string * list string)) : list (list N * list (list N)) :=
  map (fun kv => (js (fst kv), map js (snd kv))) l.

Definition greetings : list (list N * list (list N)) := table
  [ ("morning", ["おはようございます"; "お疲れ様です"; "朝からお忙しい中"]);
    ("afternoon", ["お疲れ様です"; "いつもお世話になっております"; "午後もお忙しい中"]);
    ("evening", ["お疲れ様でした"; "遅い時間に恐縮です"; "本日もお疲れ様です"]);
    ("general", ["いつもお世話になっております"; "お疲れ様です"; "恐れ入ります"]) ].

Definition cushions : list (list N * list (list N)) := table
  [ ("request", ["お忙しい中恐縮ですが"; "もしよろしければ"; "お手数をおかけしますが";
                 "ご都合がつく際に"; "お時間のある時に"; "恐れ入りますが"]);
    ("urgent", ["急ぎで恐縮ですが"; "緊急でお願いがあります"; "至急で申し訳ございませんが";
                "大変恐縮ですが急ぎで"; "お忙しい中申し訳ございませんが緊急で"]);
    ("superior", ["お忙しい中申し訳ございませんが"; "恐れ入りますが";
                  "不躾なお願いで申し訳ございませんが"; "ご多忙中恐縮ですが";
                  "お時間をいただき恐縮ですが"]);
    ("casual", ["よろしければ"; "もしお時間があるときに"; "お疲れ様です";
                "いつもありがとうございます"]) ].

Definition closings : list (list N * list (list N)) := table
  [ ("request", ["よろしくお願いいたします"; "ご検討のほどよろしくお願いします";
                 "お忙しい中ありがとうございます"; "どうぞよろしくお願いします"]);
    ("question", ["お教えいただけますと幸いです"; "ご回答いただければと思います";
                  "お聞かせいただけませんでしょうか"; "ご意見をお聞かせください"]);
    ("urgent", ["急ぎで申し訳ございませんが、よろしくお願いします";
                "お忙しい中恐縮ですが、お急ぎでお願いします";
                "至急対応していただけますと助かります"]);
    ("gratitude", ["いつもありがとうございます"; "お忙しい中ありがとうございました";
                   "ご協力いただきありがとうございます"; "心より感謝申し上げます"]) ].

Definition emojis : list (list N * list (list N)) := table
  [ ("request", ["🙏"; "💦"; "✨"]);
    ("question", ["❓"; "🤔"; "💭"]);
    ("urgent", ["⚡"; "🔥"; "💦"]);
    ("grateful", ["😊"; "🙏"; "✨"]);
    ("general", ["😊"; "✨"; "🌸"]) ].

(** [table[key]] on a table of lists; the lists of the source are never
    empty, so a present key is truthy. *)
Definition entry (t : list (list N * list (list N))) (key : list N)
    : option (list (list N)) :=
  snd <$> find (fun kv => eqb (fst kv) key) t.

Definition entryOr (t : list (list N * list (list N))) (key fallback : list N)
    : list (list N) :=
  match entry t key with
  | Some l => l
  | None => default [] (entry t fallback)
  end.

Record Keywords := {
  business : list (list N);
  technical : list (list N);
  time : list (list N);
  all : list (list N)
}.

Record Components := {
  mainContent : list N;
  requestType : list N;
  keyWords : Keywords;
  emotionalTone : list N;
  hasQuestion : bool;
  hasRequest : bool;
  length_ : nat
}.

Definition extractMainContent (text : list N) : list N :=
  trim (replaceAllAlt (map js ["だよね"; "じゃん"; "だっけ"]) []
          (replaceAllAlt (map js ["ちょっと"; "やっぱり"; "とりあえず"]) [] text)).

Definition identifyRequestType (text : list N) : list N :=
  if testAny (map js ["確認"; "チェック"; "見て"]) text then js "verification"
  else if testAny (map js ["教えて"; "聞きたい"; "質問"]) text then js "information"
  else if testAny (map js ["作って"; "やって"; "対応"]) text then js "action"
  else if testAny (map js ["送って"; "共有"]) text then js "sharing"
  else if testAny (map js ["会議"; "打ち合わせ"; "ミーティング"]) text then js "meeting"
  else if testAny (map js ["報告"; "連絡"; "お知らせ"]) text then js "notification"
  else js "general".

Definition extractKeywords (text : list N) : Keywords :=
  let businessKeywords :=
    matchAllAlt (map js ["会議"; "資料"; "プロジェクト"; "システム"; "データ";
                         "分析"; "売上"; "予算"]) text in
  let technicalKeywords :=
    matchAllAlt (map js ["アプデ"; "バグ"; "デプロイ"; "API"; "サーバー";
                         "データベース"]) text in
  let timeKeywords :=
    matchAllAlt (map js ["明日"; "今日"; "来週"; "月曜"; "火曜"; "水曜"; "木曜";
                         "金曜"; "土曜"; "日曜"]) text in
  {| business := businessKeywords; technical := technicalKeywords;
     time := timeKeywords;
     all := businessKeywords ++ technicalKeywords ++ timeKeywords |}.

Definition detectEmotionalTone (text : list N) : list N :=
  if testAny (map js ["急"; "緊急"; "至急"; "ヤバい"; "マジで"]) text then js "urgent"
  else if testAny (map js ["ありがとう"; "感謝"; "助かる"]) text then js "grateful"
  else if testAny (map js ["すみません"; "申し訳"; "ごめん"]) text then js "apologetic"
  else if testAny (map js ["困って"; "問題"; "トラブル"]) text then js "troubled"
  else if testAny (map js ["よろしく"; "お願い"]) text then js "requesting"
  else js "neutral".

Definition analyzeTextComponents (text : list N) : Components :=
  {| mainContent := extractMainContent text;
     requestType := identifyRequestType text;
     keyWords := extractKeywords text;
     emotionalTone := detectEmotionalTone text;
     hasQuestion := includes text (js "？") || includes text (js "?");
     hasRequest := testAny (map js ["して"; "やって"; "お願い"]) text;
     length_ := length text |}.

Definition selectGreeting (context : Context) : Gen (option (list N)) :=
  if eqb (timeContext context) []
  then getRandomElement (default [] (entry greetings (js "general")))
  else getRandomElement (entryOr greetings (timeContext context) (js "general")).

Definition selectCushion (components : Components) (context : Context) (level : Z)
    : Gen (option (list N)) :=
  if (level <=? 2)%Z then mret None
  else if eqb (emotionalTone components) (js "urgent")
  then getRandomElement (default [] (entry cushions (js "urgent")))
  else if bool_decide (relationship context = Some (js "superior"))
  then getRandomElement (default [] (entry cushions (js "superior")))
  else if eqb (requestType components) (js "action") || hasRequest components
  then getRandomElement (default [] (entry cushions (js "request")))
  else getRandomElement (default [] (entry cushions (js "casual"))).

Definition wordMappings : list (list N * list N) :=
  map (fun kv => (js (fst kv), js (snd kv)))
  [ ("アプデ", "アップデート"); ("バグ", "不具合"); ("チェック", "ご確認");
    ("やって", "ご対応"); ("して", "していただく"); ("マジで", "非常に");
    ("ヤバい", "大変な状況") ].

Definition applyWordTransformations (text : list N) (context : Context) : list N :=
  fold_left (fun result kv => replaceAll (fst kv) (snd kv) result) wordMappings text.

Definition applyPhraseTransformations (text : list N) (context : Context)
    (level : Z) : list N :=
  let result := text in
  let result := replaceAll (js "確認して")
    (if (4 <=? level)%Z then js "ご確認いただけますでしょうか" else js "ご確認ください")
    result in
  let result := replaceAll (js "教えて")
    (if (3 <=? level)%Z then js "お教えいただけませんでしょうか" else js "お教えください")
    result in
  replaceAll (js "送って")
    (if (3 <=? level)%Z then js "お送りいただけませんでしょうか" else js "お送りください")
    result.

Definition applySentenceAdjustments (text : list N) (components : Components)
    (level : Z) : list N :=
  if negb (endsWith text (js "。")) && negb (endsWith text (js "？"))
     && negb (endsWith text (js "です")) && negb (endsWith text (js "ます"))
  then if hasQuestion components
       then text ++ (if (3 <=? level)%Z then js "でしょうか？" else js "ですか？")
       else text ++ (if (3 <=? level)%Z then js "いただけますでしょうか。"
                     else js "お願いします。")
  else text.

Definition transformMainContent (components : Components) (context : Context)
    (level : Z) : list N :=
  let content := mainContent components in
  let content := applyWordTransformations content context in
  let content := applyPhraseTransformations content context level in
  applySentenceAdjustments content components level.

Definition selectClosing (components : Components) (context : Context) (level : Z)
    : Gen (option (list N)) :=
  if (level <=? 2)%Z then mret None
  else if hasQuestion components
  then getRandomElement (default [] (entry closings (js "question")))
  else if eqb (emotionalTone components) (js "urgent")
  then getRandomElement (default [] (entry closings (js "urgent")))
  else if eqb (emotionalTone components) (js "grateful")
  then getRandomElement (default [] (entry closings (js "gratitude")))
  else getRandomElement (default [] (entry closings (js "request"))).

Definition addCourtesyElements (context : Context) : Gen (option (list N)) :=
  r ← Math_random;
  let elements :=
    (if Qlt_le_dec (1 # 2) r
     then [js "何かご不明な点がございましたら、お気軽にお声かけください。"] else [])
    ++ (if bool_decide (relationship context = Some (js "superior"))
        then [js "ご多忙中にも関わらず、いつもありがとうございます。"] else []) in
  mret (if (0 <? length elements)%nat then Some (join (js " ") elements) else None).

Record Structure := {
  greeting : option (list N);
  cushion : option (list N);
  mainBody : list N;
  closing : option (list N);
  additionalCourtesy : option (list N)
}.

Definition planSentenceStructure (components : Components) (context : Context)
    (level : Z) : Gen Structure :=
  greeting ← selectGreeting context;
  cushion ← selectCushion components context level;
  let mainBody := transformMainContent components context level in
  closing ← selectClosing components context level;
  additionalCourtesy ←
    (if (4 <=? level)%Z then addCourtesyElements context else mret None);
  mret {| greeting := greeting; cushion := cushion; mainBody := mainBody;
          closing := closing; additionalCourtesy := additionalCourtesy |}.

(** The truthy values of an optional string, with what the string
    concatenation makes of it. *)
Definition part (o : option (list N)) (suffix : list N) : list (list N) :=
  match o with
  | Some (c :: s) => [(c :: s) ++ suffix]
  | _ => []
  end.

Definition determineEmojiContext (text : list N) : list N :=
  if testAny (map js ["お願い"; "いただけ"]) text then js "request"
  else if testAny (map js ["でしょうか"; "ますか"]) text then js "question"
  else if testAny (map js ["急"; "至急"; "緊急"]) text then js "urgent"
  else if testAny (map js ["ありがとう"; "感謝"]) text then js "grateful"
  else js "general".

Definition addEmoji (text : list N) (context : Context) : Gen (list N) :=
  let contextType := determineEmojiContext text in
  let availableEmojis := entryOr emojis contextType (js "general") in
  selectedEmoji ← getRandomElement availableEmojis;
  mret (text ++ js " " ++ default (js "undefined") selectedEmoji).

Definition assembleSentence (structure : Structure) (context : Context)
    (level : Z) : Gen (list N) :=
  let parts :=
    (if (3 <=? level)%Z then part (greeting structure) (js "。") else [])
    ++ part (cushion structure) (js "、")
    ++ [mainBody structure]
    ++ part (closing structure) (js "。")
    ++ part (additionalCourtesy structure) [] in
  let result := trim (collapseSpaces false (join (js " ") parts)) in
  if (4 <=? level)%Z then addEmoji result context else mret result.

Definition generatePoliteVersion (originalText : list N) (context : Context)
    (level : Z) : Gen (list N) :=
  let components := analyzeTextComponents originalText in
  sentenceStructure ← planSentenceStructure components context level;
  assembleSentence sentenceStructure context level.

Record Variation := {
  level : Z;
  text : list N;
  description : list N;
  characteristics : option (list (list N));
  style : option (list N)
}.

Definition getLevelDescription (level : Z) : list N :=
  if (level =? 1)%Z then js "基本的な丁寧語"
  else if (level =? 2)%Z then js "標準的な敬語"
  else if (level =? 3)%Z then js "丁寧で気遣いのある表現"
  else if (level =? 4)%Z then js "非常に丁寧で配慮深い表現"
  else if (level =? 5)%Z then js "最高レベルの敬語と絵文字付き"
  else js "標準".

Definition getLevelCharacteristics (level : Z) : list (list N) :=
  if (level =? 1)%Z then map js ["です・ます調"; "基本的な敬語"]
  else if (level =? 2)%Z then map js ["クッション言葉"; "より丁寧な表現"]
  else if (level =? 3)%Z then map js ["挨拶付き"; "配慮表現"; "適切な締め"]
  else if (level =? 4)%Z then map js ["高度な敬語"; "追加の気遣い"; "絵文字"]
  else if (level =? 5)%Z
  then map js ["最高敬語"; "複数の配慮表現"; "感情豊かな絵文字"]
  else [].

(** [{ ...context, situation: s, relationship: r }]. *)
Definition withFraming (context : Context) (s r : list N) : Context :=
  {| intent := intent context; urgency := urgency context;
     relationship := Some r; situation := s;
     formalityLevel := formalityLevel context;
     timeContext := timeContext context;
     improvement := improvement context;
     casualWords := casualWords context |}.

Definition generateStyleVariations (originalText : list N) (context : Context)
    (level : Z) : Gen (list Variation) :=
  let businessContext := withFraming context (js "business") (js "superior") in
  businessVersion ← generatePoliteVersion originalText businessContext level;
  let friendlyContext := withFraming context (js "casual") (js "colleague") in
  friendlyVersion ← generatePoliteVersion originalText friendlyContext level;
  mret [ {| level := level; text := businessVersion;
            description := js "ビジネス調"; characteristics := None;
            style := Some (js "business") |};
         {| level := level; text := friendlyVersion;
            description := js "親しみやすい丁寧調"; characteristics := None;
            style := Some (js "friendly") |} ].

(** The loop [for (let level = 2; level <= 5; level++)] of
    [generateVariations], as the levels still to visit. *)
Fixpoint levelLoop (originalText : list N) (context : Context) (levels : list Z)
    : Gen (list Variation) :=
  match levels with
  | [] => mret []
  | level :: rest =>
    variation ← generatePoliteVersion originalText context level;
    others ← levelLoop originalText context rest;
    mret ({| level := level; text := variation;
             description := getLevelDescription level;
             characteristics := Some (getLevelCharacteristics level);
             style := None |} :: others)
  end.

Definition generateVariations (originalText : list N) (context : Context)
    (baseLevel : Z) : Gen (list Variation) :=
  variations ← levelLoop originalText context [2; 3; 4; 5]%Z;
  styleVariations ← generateStyleVariations originalText context baseLevel;
  mret (variations ++ styleVariations).

Record Quality := {
  improvements : list (list N);
  strengths : list (list N);
  suggestions : list (list N);
  score : Z
}.

Definition analyzeSentenceQuality (originalText generatedText : list N)
    (context : Context) : Quality :=
  let hasMarkers :=
    existsb (includes generatedText)
      (map js ["お疲れ"; "いつもお世話"; "よろしく"; "ありがとう"; "すみません"]) in
  let urgentOk :=
    eqb (urgency context) (js "urgent") && includes generatedText (js "急") in
  let longer :=
    bool_decide (Z.of_nat (length originalText) * 15
                 < Z.of_nat (length generatedText) * 10)%Z in
  {| improvements :=
       if hasMarkers then []
       else [js "挨拶や締めの言葉を追加すると更に丁寧になります"];
     strengths :=
       (if hasMarkers then [js "適切な挨拶・締めの言葉が含まれています"] else [])
       ++ (if urgentOk then [js "緊急性が適切に表現されています"] else [])
       ++ (if longer then [js "元の文章より十分に丁寧な表現になりました"] else []);
     suggestions := [];
     score := Z.min 100 ((if hasMarkers then 20 else 0)
                         + (if urgentOk then 15 else 0)
                         + (if longer then 25 else 0) + 40) |}.

End SentenceGenerator.

(** ** EnhancedConversionEngine *)

Module Engine.
Import ContextAnalyzer Random Exn.

(** The statements of the [try] block of [convertText].  The source has no
    [throw] of its own; an exception can only come from the runtime, so
    which statement raises, and what, is an input ([Faults]). *)
Inductive Step :=
| AnalyzeContext | DetermineTargetLevel | GenerateConversions
| SelectBestConversion | GenerateSuggestions | StoreConversion
| AnalyzeImprovements.

Definition Faults := Step -> option Error.

Definition noFault : Faults := fun _ => None.

Definition attempt {A} (faults : Faults) (step : Step) (a : A) : Outcome A :=
  match faults step with
  | Some e => Throw e
  | None => Return a
  end.

(** The readings of the clock during one call. *)
Record Clock := {
  startTime : Z;
  hours : Z;
  storedAt : list N;
  endTime : Z;
  finishedAt : list N
}.

Record Options := {
  optLevel : option Z;
  preferredApproach : option (list N)
}.

Record Preferences := {
  defaultLevel : Z;
  prefApproach : option (list N);
  enableEmoji : bool;
  contextSensitivity : list N
}.

Record Candidate := {
  approach : list N;
  text : list N;
  level : Z;
  confidence : Q;
  details : option (list WordConverter.Conversion);
  description : list N;
  characteristics : option (list (list N))
}.

Record HistoryRecord := {
  hTimestamp : list N;
  hOriginal : list N;
  hConverted : list N;
  hContext : Context;
  hLevel : Z;
  hApproach : list N;
  hUserOptions : Options;
  hConfidence : Q
}.

Record State := {
  conversionHistory : list HistoryRecord;
  userPreferences : Preferences
}.

Definition loadUserPreferences : Preferences :=
  {| defaultLevel := 3; prefApproach := None; enableEmoji := true;
     contextSensitivity := js "high" |}.

(** The state the constructor leaves. *)
Definition initial : State :=
  {| conversionHistory := []; userPreferences := loadUserPreferences |}.

Definition determineTargetLevel (prefs : Preferences) (context : Context)
    (options : Options) : Z :=
  let userSpecified :=
    match optLevel options with
    | Some l => negb (l =? 0)%Z && (1 <=? l)%Z && (l <=? 5)%Z
    | None => false
    end in
  if userSpecified then default 0%Z (optLevel options)
  else
    let targetLevel := 3%Z in
    let targetLevel :=
      if bool_decide (relationship context = Some (js "superior"))
      then Z.max targetLevel 4
      else if bool_decide (relationship context = Some (js "subordinate"))
      then Z.max targetLevel 2
      else targetLevel in
    let targetLevel :=
      if eqb (urgency context) (js "urgent")
      then Z.max targetLevel 3 else targetLevel in
    let targetLevel :=
      if eqb (situation context) (js "business")
      then Z.max targetLevel 3 else targetLevel in
    let targetLevel :=
      if eqb (formalityLevel context) (js "very-casual")
      then Z.max targetLevel 4 else targetLevel in
    let targetLevel :=
      if negb (defaultLevel prefs =? 0)%Z
      then Z.max targetLevel (defaultLevel prefs) else targetLevel in
    Z.min 5 targetLevel.

(** [{ ...context, situation: .., intent: .., relationship: .. }] with the
    fields of [context] itself. *)
Definition generateContextOptimizedVersion (originalText : list N)
    (context : Context) (targetLevel : Z) : Gen (list N) :=
  let optimizedContext :=
    {| intent := intent context; urgency := urgency context;
       relationship := relationship context; situation := situation context;
       formalityLevel := formalityLevel context;
       timeContext := timeContext context; improvement := improvement context;
       casualWords := casualWords context |} in
  SentenceGenerator.generatePoliteVersion originalText optimizedContext targetLevel.

Definition generateConversions (originalText : list N) (context : Context)
    (targetLevel : Z) : Gen (list Candidate) :=
  let wordConversion := WordConverter.convertText originalText (Some context) in
  let conversions :=
    [ {| approach := js "word-level";
         text := WordConverter.text wordConversion;
         level := targetLevel; confidence := 0.75%Q;
         details := Some (WordConverter.conversions wordConversion);
         description := js "単語・フレーズレベルの丁寧語変換";
         characteristics := None |} ] in
  sentenceConversion ←
    SentenceGenerator.generatePoliteVersion originalText context targetLevel;
  let conversions := conversions ++
    [ {| approach := js "sentence-generation"; text := sentenceConversion;
         level := targetLevel; confidence := 0.90%Q; details := None;
         description := js "フル文章再構築による自然な丁寧語";
         characteristics := None |} ] in
  variations ←
    SentenceGenerator.generateVariations originalText context targetLevel;
  let conversions := conversions ++
    map (fun variation =>
           {| approach := js "level-variation";
              text := SentenceGenerator.text variation;
              level := SentenceGenerator.level variation;
              confidence := 0.80%Q; details := None;
              description := SentenceGenerator.description variation;
              characteristics := SentenceGenerator.characteristics variation |})
        variations in
  if negb (eqb (situation context) (js "general"))
  then
    contextOptimized ←
      generateContextOptimizedVersion originalText context targetLevel;
    mret (conversions ++
      [ {| approach := js "context-optimized"; text := contextOptimized;
           level := targetLevel; confidence := 0.85%Q; details := None;
           description := situation context ++ js "コンテキスト最適化版";
           characteristics := None |} ])
  else mret conversions.

Definition scoreConversion (prefs : Preferences) (conversion : Candidate)
    (context : Context) (options : Options) : Q :=
  let score := (confidence conversion * 100)%Q in
  let score :=
    if eqb (approach conversion) (js "sentence-generation")
    then (score + 10)%Q else score in
  let score :=
    if eqb (approach conversion) (js "context-optimized")
    then (score + 15)%Q else score in
  let targetLevel := determineTargetLevel prefs context options in
  let levelDifference := Z.abs (level conversion - targetLevel) in
  let score := (score - inject_Z levelDifference * 5)%Q in
  if needsImprovementFlag (improvement context)
     && (length (issues (improvement context)) * 20 <? length (text conversion))%nat
  then (score + 20)%Q else score.

(** [scored.sort((a, b) => b.score - a.score)]: a stable sort, the higher
    score first. *)
Fixpoint insertByScore (x : Candidate * Q) (l : list (Candidate * Q))
    : list (Candidate * Q) :=
  match l with
  | [] => [x]
  | y :: rest =>
    if Qlt_le_dec (snd x) (snd y) then y :: insertByScore x rest
    else x :: l
  end.

Definition sortByScore (l : list (Candidate * Q)) : list (Candidate * Q) :=
  foldr insertByScore [] l.

(** [None] is the [undefined] of an empty candidate list. *)
Definition selectBestConversion (prefs : Preferences)
    (conversions : list Candidate) (context : Context) (options : Options)
    : option Candidate :=
  let preferred :=
    match preferredApproach options with
    | Some (c :: a) =>
      find (fun conv => eqb (approach conv) (c :: a)) conversions
    | _ => None
    end in
  match preferred with
  | Some p => Some p
  | None =>
    let scoredConversions :=
      map (fun conversion =>
             (conversion, scoreConversion prefs conversion context options))
          conversions in
    fst <$> head (sortByScore scoredConversions)
  end.

Record Suggestion := {
  stype : list N;
  message : list N;
  words : option (list (list N));
  examples : option (list (list N));
  action : option (list N)
}.

Definition plain (ty msg : list N) : Suggestion :=
  {| stype := ty; message := msg; words := None; examples := None;
     action := None |}.

(** [[...new Set(l)]]: the first occurrence of each string. *)
Fixpoint dedupe (l : list (list N)) : list (list N) :=
  match l with
  | [] => []
  | x :: rest => x :: filter (fun y => eqb x y = false) (dedupe rest)
  end.

(** [WordConverter.findCasualWords]. *)
Definition remainingCasualWords (text : list N) : list (list N) :=
  let dictionary :=
    filter (fun casual => includes text casual = true)
           (map fst WordConverter.words) in
  let patterns :=
    map js ["やっぱり"; "やっぱ"; "てか"; "というか"; "つーか"; "まじ"; "やばい";
            "すげー"; "でかい"; "ちっちゃい"; "うざい"; "むかつく"; "だりー"] in
  dedupe (dictionary ++ filter (fun p => includes text p = true) patterns).

(** [WordConverter.isAbrupt]. *)
Definition isAbrupt (text : list N) : bool :=
  let hasMarkers :=
    existsb (includes text)
      (map js ["お疲れ"; "よろしく"; "ありがとう"; "すみません"; "恐縮"; "失礼";
               "お忙しい"; "恐れ入り"; "申し訳"; "いつもお世話"]) in
  let hasDirectCommands :=
    startsWithDirectCommand text
    || existsb (fun p => startsWith p text)
         (map js ["確認"; "送"; "作"; "修正"; "対応"]) in
  negb hasMarkers && (hasDirectCommands || (length text <? 15)%nat).

(** [WordConverter.getSuggestions]. *)
Definition wordSuggestions (text : list N) (context : Context) : list Suggestion :=
  let casualWords := remainingCasualWords text in
  (if (0 <? length casualWords)%nat
   then [ {| stype := js "improvement";
             message := js "以下のカジュアルな表現が残っています: "
                        ++ join (js ", ") casualWords;
             words := Some casualWords; examples := None; action := None |} ]
   else [])
  ++ (if isAbrupt text
      then [ {| stype := js "tone";
                message := js "文章がやや直接的です。クッション言葉を追加することをお勧めします。";
                words := None;
                examples := Some (map js ["お忙しい中恐縮ですが"; "もしよろしければ";
                                          "お時間のある時に"]);
                action := None |} ]
      else [])
  ++ (if eqb (urgency context) (js "urgent") && negb (includes text (js "急"))
         && negb (includes text (js "至急"))
      then [ {| stype := js "urgency";
                message := js "緊急性を示す表現を追加することをお勧めします。";
                words := None;
                examples := Some (map js ["急ぎで恐縮ですが";
                                          "至急お願いしたいのですが"]);
                action := None |} ]
      else [])
  ++ (if bool_decide (relationship context = Some (js "superior"))
         && negb (includes text (js "恐れ入り"))
         && negb (includes text (js "申し訳"))
      then [ {| stype := js "relationship";
                message := js "上司への敬意を示す表現を追加することをお勧めします。";
                words := None;
                examples := Some (map js ["恐れ入りますが"; "申し訳ございませんが";
                                          "お忙しい中申し訳ございませんが"]);
                action := None |} ]
      else []).

Definition generateSuggestions (originalText : list N)
    (selectedConversion : Candidate) (context : Context) : list Suggestion :=
  let contextSuggestions := ContextAnalyzer.generateSuggestions context in
  let qualityAnalysis :=
    SentenceGenerator.analyzeSentenceQuality originalText
      (text selectedConversion) context in
  map (plain (js "context")) contextSuggestions
  ++ wordSuggestions (text selectedConversion) context
  ++ map (plain (js "quality")) (SentenceGenerator.suggestions qualityAnalysis)
  ++ (if (level selectedConversion <? 4)%Z
         && bool_decide (relationship context = Some (js "superior"))
      then [ {| stype := js "level";
                message := js "上司への連絡の場合、レベル4以上をお勧めします";
                words := None; examples := None;
                action := Some (js "increase_level") |} ]
      else []).

Definition analyzeImprovements (originalText convertedText : list N)
    : list (list N) :=
  let addedMarkers :=
    filter (fun marker => includes originalText marker = false
                          ∧ includes convertedText marker = true)
           (map js ["お疲れ"; "よろしく"; "ありがとう"; "すみません"; "いつもお世話"]) in
  let replacedWords :=
    filter (fun word => includes originalText word = true
                        ∧ includes convertedText word = false)
           (map js ["アプデ"; "バグ"; "やって"; "して"; "マジで"]) in
  (if bool_decide (Z.of_nat (length originalText) * 13
                   < Z.of_nat (length convertedText) * 10)%Z
   then [js "文章が十分に丁寧な長さになりました"] else [])
  ++ (if (0 <? length addedMarkers)%nat
      then [js "丁寧な表現を追加: " ++ join (js ", ") addedMarkers] else [])
  ++ (if (0 <? length replacedWords)%nat
      then [js "カジュアルな表現を改善: "
            ++ digits (N.of_nat (length replacedWords)) ++ js "個の単語"]
      else []).

(** [l.slice(-n)]. *)
Definition lastN {A} (n : nat) (l : list A) : list A := drop (length l - n) l.

(** [counts[k] = (counts[k] || 0) + 1] on an ordered table. *)
Fixpoint bump (counts : list (list N * Z)) (k : list N) : list (list N * Z) :=
  match counts with
  | [] => [(k, 1%Z)]
  | (k', n) :: rest =>
    if eqb k' k then (k', (n + 1)%Z) :: rest else (k', n) :: bump rest k
  end.

(** [Object.keys(counts).reduce((a, b) => counts[a] > counts[b] ? a : b)]. *)
Definition mostFrequent (counts : list (list N * Z)) : option (list N) :=
  match counts with
  | [] => None
  | first :: rest =>
    Some (fst (fold_left (fun a b => if (snd b <? snd a)%Z then a else b)
                         rest first))
  end.

(** [Math.round(sum / n)] for integers and [n > 0]: halves round up. *)
Definition roundedAverage (levels : list Z) : Z :=
  let n := Z.of_nat (length levels) in
  ((2 * foldr Z.add 0 levels + n) / (2 * n))%Z.

Definition updateUserPreferences (s : State) : State :=
  if (5 <=? length (conversionHistory s))%nat
  then
    let recentLevels := map hLevel (lastN 5 (conversionHistory s)) in
    let approaches := map hApproach (lastN 10 (conversionHistory s)) in
    let approachCounts := fold_left bump approaches [] in
    {| conversionHistory := conversionHistory s;
       userPreferences :=
         {| defaultLevel := roundedAverage recentLevels;
            prefApproach := mostFrequent approachCounts;
            enableEmoji := enableEmoji (userPreferences s);
            contextSensitivity := contextSensitivity (userPreferences s) |} |}
  else s.

Definition storeConversion (clock : Clock) (originalText : list N)
    (selectedConversion : Candidate) (context : Context) (options : Options)
    (s : State) : State :=
  let conversionRecord :=
    {| hTimestamp := storedAt clock; hOriginal := originalText;
       hConverted := text selectedConversion; hContext := context;
       hLevel := level selectedConversion;
       hApproach := approach selectedConversion; hUserOptions := options;
       hConfidence := confidence selectedConversion |} in
  let history := conversionHistory s ++ [conversionRecord] in
  let history := if (100 <? length history)%nat then lastN 100 history
                 else history in
  updateUserPreferences
    {| conversionHistory := history; userPreferences := userPreferences s |}.

Inductive ResultContext :=
| Analyzed (c : Context)
| Literal (intent urgency relationship : list N).

Record DetectedIssues := {
  dNeedsImprovement : bool;
  dIssues : list (list N);
  dSeverity : option (list N)
}.

Record Analysis := {
  processingTime : Z;
  aConfidence : Q;
  aImprovements : list (list N);
  detectedIssues : DetectedIssues
}.

Record Metadata := {
  mConversions : nat;
  timestamp : list N;
  engine : list N;
  mError : option (list N)
}.

Record Result := {
  rOriginal : list N;
  rConverted : list N;
  rContext : ResultContext;
  rLevel : Z;
  rVariations : list Candidate;
  rSuggestions : list Suggestion;
  rAnalysis : Analysis;
  rMetadata : Metadata
}.

Definition createFallbackResponse (clock : Clock) (originalText : list N)
    (error : Error) : Result :=
  {| rOriginal := originalText;
     rConverted := originalText ++ js "をお願いします。";
     rContext := Literal (js "unknown") (js "normal") (js "unknown");
     rLevel := 2;
     rVariations := [];
     rSuggestions :=
       [ plain (js "error")
           (js "システムエラーが発生しました。シンプルな変換を適用しました。") ];
     rAnalysis :=
       {| processingTime := 0; aConfidence := 0.3%Q; aImprovements := [];
          detectedIssues :=
            {| dNeedsImprovement := true; dIssues := [js "processing_error"];
               dSeverity := None |} |};
     rMetadata :=
       {| mConversions := 1; timestamp := finishedAt clock;
          engine := js "fallback"; mError := Some (errorMessage error) |} |}.

(** A property read of [undefined] raises a [TypeError]. *)
Definition readOf {A} (what : list N) (o : option A) : Outcome A :=
  match o with
  | Some a => Return a
  | None =>
    Throw {| errorMessage :=
               js "Cannot read properties of undefined (reading '" ++ what
               ++ js "')" |}
  end.

(** The [try] block of [convertText], threading the engine state and the
    random source; both keep what was done before an exception. *)
Definition convertBody (faults : Faults) (clock : Clock) (originalText : list N)
    (options : Options) (s : State) (g : Source)
    : Outcome Result * State * Source :=
  match attempt faults AnalyzeContext (analyzeContext (hours clock) originalText) with
  | Throw e => (Throw e, s, g)
  | Return context =>
  match attempt faults DetermineTargetLevel
          (determineTargetLevel (userPreferences s) context options) with
  | Throw e => (Throw e, s, g)
  | Return targetLevel =>
  match attempt faults GenerateConversions
          (generateConversions originalText context targetLevel g) with
  | Throw e => (Throw e, s, g)
  | Return (conversions, g) =>
  match attempt faults SelectBestConversion
          (selectBestConversion (userPreferences s) conversions context options) with
  | Throw e => (Throw e, s, g)
  | Return selected =>
  match readOf (js "text") selected with
  | Throw e => (Throw e, s, g)
  | Return selectedConversion =>
  match attempt faults GenerateSuggestions
          (generateSuggestions originalText selectedConversion context) with
  | Throw e => (Throw e, s, g)
  | Return suggestions =>
  match attempt faults StoreConversion
          (storeConversion clock originalText selectedConversion context options s) with
  | Throw e => (Throw e, s, g)
  | Return s' =>
  match attempt faults AnalyzeImprovements
          (analyzeImprovements originalText (text selectedConversion)) with
  | Throw e => (Throw e, s', g)
  | Return improvements =>
    (Return
       {| rOriginal := originalText;
          rConverted := text selectedConversion;
          rContext := Analyzed context;
          rLevel := level selectedConversion;
          rVariations := conversions;
          rSuggestions := suggestions;
          rAnalysis :=
            {| processingTime := endTime clock - startTime clock;
               aConfidence := if Qeq_bool (confidence selectedConversion) 0
                              then 0.85%Q else confidence selectedConversion;
               aImprovements := improvements;
               detectedIssues :=
                 {| dNeedsImprovement := needsImprovementFlag (improvement context);
                    dIssues := issues (improvement context);
                    dSeverity := Some (severity (improvement context)) |} |};
          rMetadata :=
            {| mConversions := length conversions;
               timestamp := finishedAt clock;
               engine := js "enhanced-v2.0"; mError := None |} |},
     s', g)
  end end end end end end end end.

(** [async convertText(originalText, options = {})]: the outcome is how the
    returned promise settles. *)
Definition convertText (faults : Faults) (clock : Clock) (originalText : list N)
    (options : Options) (s : State) (g : Source)
    : Outcome Result * State * Source :=
  let '(outcome, s', g') := convertBody faults clock originalText options s g in
  (tryCatch outcome
     (fun error => Return (createFallbackResponse clock originalText error)),
   s', g').

End Engine.

(** ** QualityAssessment *)

Module QualityAssessment.

Definition weights : list (list N * Q) :=
  [ (js "naturalness", 0.3%Q); (js "intentPreservation", 0.3%Q);
    (js "appropriateness", 0.25%Q); (js "completeness", 0.15%Q) ].

(** [this.weights[metric] || 0.25]. *)
Definition weightOf (metric : list N) : Q :=
  match find (fun kw => eqb (fst kw) metric) weights with
  | Some kw => if Qeq_bool (snd kw) 0 then 0.25%Q else snd kw
  | None => 0.25%Q
  end.

Definition calculateOverallScore (scores : list (list N * Q)) : Q :=
  let '(weightedSum, totalWeight) :=
    fold_left
      (fun acc entry =>
         let weight := weightOf (fst entry) in
         ((fst acc + snd entry * weight)%Q, (snd acc + weight)%Q))
      scores (0%Q, 0%Q) in
  if Qlt_le_dec 0 totalWeight then (weightedSum / totalWeight)%Q else 0.5%Q.

(** The [scores] object [assessConversion] fills, one entry per evaluator
    in the order of [this.metrics]. *)
Definition axisScores (naturalness intentPreservation appropriateness
    completeness : Q) : list (list N * Q) :=
  [ (js "naturalness", naturalness);
    (js "intentPreservation", intentPreservation);
    (js "appropriateness", appropriateness);
    (js "completeness", completeness) ].

Definition getQualityGrade (score : Q) : list N :=
  if Qle_bool 0.9 score then js "A+"
  else if Qle_bool 0.8 score then js "A"
  else if Qle_bool 0.7 score then js "B+"
  else if Qle_bool 0.6 score then js "B"
  else if Qle_bool 0.5 score then js "C+"
  else if Qle_bool 0.4 score then js "C"
  else if Qle_bool 0.3 score then js "D"
  else js "F".

End QualityAssessment.

(** ** FeedbackLearning *)

Module FeedbackLearning.
Import Exn.

(** The value of a division of two lengths. *)
Inductive Ratio :=
| Finite (q : Q)
| PositiveInfinity
| NotANumber.

Definition divide (a b : nat) : Ratio :=
  match b with
  | O => match a with O => NotANumber | S _ => PositiveInfinity end
  | S _ => Finite (Qmake (Z.of_nat a) (Pos.of_nat b))
  end.

(** The [context] of a payload: a string, or the context object of a
    conversion result. *)
Inductive ContextValue :=
| ContextLabel (s : list N)
| ContextObject (c : Engine.ResultContext).

Record FeedbackOptions := { optionLevel : option Z }.

Record Payload := {
  originalText : list N;
  convertedText : list N;
  userRating : Z;
  userCorrection : option (list N);
  context : option ContextValue;
  options : option FeedbackOptions;
  timestamp : option Z;
  feedbackType : option (list N)
}.

Record Metrics := {
  textLength : nat;
  conversionRatio : Ratio;
  hasCorrection : bool;
  ratingCategory : list N
}.

Record Feedback := {
  id : list N;
  payload : Payload;
  fTimestamp : Z;
  fFeedbackType : list N;
  processed : bool;
  qualityMetrics : Metrics
}.

(** A learning pattern; [pattern] is the [from] of a correction, which
    also has a [to], and [patternType] its [correctionType]. *)
Record LearningPattern := {
  type : list N;
  pattern : list N;
  to : option (list N);
  patternType : list N;
  occurrences : Z;
  contexts : list (option ContextValue);
  confidence : Q
}.

Record Mark := { markPattern : list N; markTimestamp : Z }.

Record ContextPreference := {
  successfulPatterns : list Mark;
  problematicPatterns : list Mark
}.

Record UserPreferences := {
  preferredLevel : Z;
  preferredStyle : list N;
  avoidPatterns : list (list N);
  favoritePatterns : list (list N);
  contextPreferences : gmap (list N) ContextPreference
}.

Record State := {
  feedbackData : gmap (list N) Feedback;
  learningPatterns : gmap (list N) LearningPattern;
  userPreferences : gmap (list N) UserPreferences
}.

(** A learner that found nothing persisted. *)
Definition empty : State :=
  {| feedbackData := ∅; learningPatterns := ∅; userPreferences := ∅ |}.

Definition getRatingCategory (rating : Z) : list N :=
  if (4 <=? rating)%Z then js "positive"
  else if (rating <=? 2)%Z then js "negative"
  else js "neutral".

Definition truthy (o : option (list N)) : bool :=
  match o with
  | Some (_ :: _) => true
  | _ => false
  end.

Definition calculateFeedbackMetrics (p : Payload) : Metrics :=
  {| textLength := length (originalText p);
     conversionRatio := divide (length (convertedText p)) (length (originalText p));
     hasCorrection := truthy (userCorrection p);
     ratingCategory := getRatingCategory (userRating p) |}.

(** What the pattern finders report. *)
Record Found := {
  foundType : list N;
  foundPattern : list N;
  foundTo : option (list N);
  grade : option (list N)
}.

(** [/恐れ入ります.*恐縮.*申し訳/.test(t)]. *)
Definition multipleApologies (t : list N) : bool :=
  testFrom (js "恐れ入ります")
    (dotStarThen (js "恐縮") (dotStarThen (js "申し訳") (fun _ => true))) t.

(** The number of leading code units [.] matches. *)
Fixpoint dotRun (t : list N) : nat :=
  match t with
  | [] => 0
  | c :: t' => if isLineTerminator c then 0 else S (dotRun t')
  end.

(** The group of [(.{3,})\1+] at the head of [t]: the longest length, at
    most [n], of a run that is followed by a copy of itself. *)
Fixpoint groupAt (t : list N) (n : nat) : option nat :=
  match n with
  | O => None
  | S m =>
    if (3 <=? n)%nat && (n <=? dotRun t)%nat && startsWith (take n t) (drop n t)
    then Some n else groupAt t m
  end.

(** The copies of [g] that follow, as [\1+] takes them. *)
Fixpoint copies (g : list N) (fuel : nat) (t : list N) : nat :=
  match fuel with
  | O => 0
  | S f => if startsWith g t then S (copies g f (drop (length g) t)) else 0
  end.

(** [converted.match(/(.{3,})\1+/g)[0]], [None] when there is no match. *)
Fixpoint firstRepetition (t : list N) : option (list N) :=
  match groupAt t (length t) with
  | Some n =>
    Some (take (n * (1 + copies (take n t) (length t) (drop n t))) t)
  | None =>
    match t with
    | [] => None
    | _ :: t' => firstRepetition t'
    end
  end.

(** [/[ぁ-んァ-ヶー]+いただけますでしょうか/.test(t)]. *)
Fixpoint kanaThenRequest (t : list N) : bool :=
  match t with
  | [] => false
  | c :: t' =>
    (WordConverter.isKana c && startsWith (js "いただけますでしょうか") t')
    || kanaThenRequest t'
  end.

(** [Math.floor(ratio)] printed, for a ratio above 4. *)
Definition floorLabel (r : Ratio) : list N :=
  match r with
  | Finite q => digits (Z.to_N (Qfloor q))
  | PositiveInfinity => js "Infinity"
  | NotANumber => js "NaN"
  end.

Definition above4 (r : Ratio) : bool :=
  match r with
  | Finite q => if Qlt_le_dec 4 q then true else false
  | PositiveInfinity => true
  | NotANumber => false
  end.

Definition identifyProblematicPatterns (original converted : list N)
    : list Found :=
  let lengthRatio := divide (length converted) (length original) in
  (if multipleApologies converted
   then [ {| foundType := js "excessive_politeness";
             foundPattern := js "multiple_apologies"; foundTo := None;
             grade := Some (js "high") |} ]
   else [])
  ++ match firstRepetition converted with
     | Some m => [ {| foundType := js "unnatural_repetition"; foundPattern := m;
                      foundTo := None; grade := Some (js "medium") |} ]
     | None => []
     end
  ++ (if kanaThenRequest converted
      then [ {| foundType := js "incomplete_conversion";
                foundPattern := js "casual_formal_mix"; foundTo := None;
                grade := Some (js "high") |} ]
      else [])
  ++ (if above4 lengthRatio
      then [ {| foundType := js "excessive_expansion";
                foundPattern := js "length_ratio_" ++ floorLabel lengthRatio;
                foundTo := None; grade := Some (js "medium") |} ]
      else []).

Definition hasAppropriatePolitenesss (t : list N) : bool :=
  testAny (map js ["いただけ"; "お願い"; "恐縮"; "申し訳"]) t
  && negb (multipleApologies t).

Definition hasNaturalFlow (t : list N) : bool :=
  negb (testAny (map js ["です。。"; "ます。です"]) t).

Definition identifySuccessfulPatterns (original converted : list N)
    : list Found :=
  (if testAny (map js ["やん"; "やで"; "だべ"]) original
      && testAny (map js ["です"; "ます"]) converted
   then [ {| foundType := js "dialect_conversion";
             foundPattern := js "successful_standardization"; foundTo := None;
             grade := Some (js "high") |} ]
   else [])
  ++ (if hasAppropriatePolitenesss converted
      then [ {| foundType := js "politeness_level";
                foundPattern := js "appropriate_keigo"; foundTo := None;
                grade := Some (js "high") |} ]
      else [])
  ++ (if hasNaturalFlow converted
      then [ {| foundType := js "sentence_flow";
                foundPattern := js "natural_transition"; foundTo := None;
                grade := Some (js "high") |} ]
      else []).

(** [t.split(/\s+/)]. *)
Fixpoint splitSpaces (inRun : bool) (current : list N) (t : list N)
    : list (list N) :=
  match t with
  | [] => [rev current]
  | c :: t' =>
    if isWhiteSpace c
    then (if inRun then splitSpaces true current t'
          else rev current :: splitSpaces true [] t')
    else splitSpaces false (c :: current) t'
  end.

(** The loop over the word positions of [analyzeCorrectionDifferences]. *)
Fixpoint wordSubstitutions (aiWords userWords : list (list N)) : list Found :=
  match aiWords, userWords with
  | aiWord :: ai', userWord :: user' =>
    (if negb (eqb aiWord userWord) && negb (eqb aiWord [])
        && negb (eqb userWord [])
     then [ {| foundType := js "word_substitution"; foundPattern := aiWord;
               foundTo := Some userWord; grade := None |} ]
     else [])
    ++ wordSubstitutions ai' user'
  | _, _ => []
  end.

Definition phraseCorrections : list (list N * list N) :=
  [ (js "いただけますでしょうか", js "お願いします");
    (js "恐れ入りますが", js "すみませんが");
    (js "よろしくお願いいたします", js "よろしくお願いします") ].

Definition findPhraseDifferences (aiOutput userCorrection : list N)
    : list Found :=
  flat_map
    (fun correction =>
       if includes aiOutput (fst correction)
          && includes userCorrection (snd correction)
       then [ {| foundType := js "phrase_correction";
                 foundPattern := fst correction;
                 foundTo := Some (snd correction); grade := None |} ]
       else [])
    phraseCorrections.

Definition analyzeCorrectionDifferences (aiOutput userCorrection : list N)
    : list Found :=
  wordSubstitutions (splitSpaces false [] aiOutput)
                    (splitSpaces false [] userCorrection)
  ++ findPhraseDifferences aiOutput userCorrection.

(** The body shared by the three extractors: create the pattern under its
    key when absent, then count the occurrence, record the context and
    recompute the confidence as [Math.min(cap, occurrences * step)]. *)
Definition learn (kind : list N) (cap step : Q) (ctx : option ContextValue)
    (patterns : gmap (list N) LearningPattern) (found : Found)
    : gmap (list N) LearningPattern :=
  let patternKey :=
    kind ++ js "_" ++ foundType found ++ js "_" ++ foundPattern found in
  let existingPattern :=
    default {| type := kind; pattern := foundPattern found;
               to := foundTo found; patternType := foundType found;
               occurrences := 0; contexts := []; confidence := 0%Q |}
            (patterns !! patternKey) in
  let occurrences' := (occurrences existingPattern + 1)%Z in
  <[ patternKey :=
       {| type := type existingPattern; pattern := pattern existingPattern;
          to := to existingPattern; patternType := patternType existingPattern;
          occurrences := occurrences';
          contexts := contexts existingPattern ++ [ctx];
          confidence := Qmin cap (inject_Z occurrences' * step) |} ]> patterns.

Definition extractNegativeFeedbackPatterns (p : Payload)
    (patterns : gmap (list N) LearningPattern) : gmap (list N) LearningPattern :=
  fold_left (learn (js "negative") 0.95%Q 0.1%Q (context p))
    (identifyProblematicPatterns (originalText p) (convertedText p)) patterns.

Definition extractPositiveFeedbackPatterns (p : Payload)
    (patterns : gmap (list N) LearningPattern) : gmap (list N) LearningPattern :=
  fold_left (learn (js "positive") 0.95%Q 0.15%Q (context p))
    (identifySuccessfulPatterns (originalText p) (convertedText p)) patterns.

Definition extractCorrectionPatterns (p : Payload)
    (patterns : gmap (list N) LearningPattern) : gmap (list N) LearningPattern :=
  fold_left (learn (js "correction") 0.9%Q 0.2%Q (context p))
    (analyzeCorrectionDifferences (convertedText p)
       (default [] (userCorrection p))) patterns.

(** The property key a context makes: [feedback.context || 'general']. *)
Definition contextKey (c : option ContextValue) : list N :=
  match c with
  | Some (ContextLabel (x :: s)) => x :: s
  | Some (ContextObject _) => js "[object Object]"
  | _ => js "general"
  end.

Definition freshPreferences : UserPreferences :=
  {| preferredLevel := 3; preferredStyle := js "balanced"; avoidPatterns := [];
     favoritePatterns := []; contextPreferences := ∅ |}.

(** [Math.round((a + b) / 2)]: halves round up. *)
Definition roundedMean (a b : Z) : Z := ((a + b + 1) / 2)%Z.

(** [updateUserPreferences]; reading [feedback.options.level] of absent
    options raises, after the preferences entry was created. *)
Definition updateUserPreferences (p : Payload) (stamp : Z)
    (prefs : gmap (list N) UserPreferences)
    : Outcome unit * gmap (list N) UserPreferences :=
  let userId := js "default" in
  let preferences := default freshPreferences (prefs !! userId) in
  let prefs := <[ userId := preferences ]> prefs in
  let leveled :=
    if (4 <=? userRating p)%Z
    then match options p with
         | Some o =>
           let given := default 0%Z (optionLevel o) in
           let targetLevel := if (given =? 0)%Z then 3%Z else given in
           Return (roundedMean (preferredLevel preferences) targetLevel)
         | None =>
           Throw {| errorMessage :=
                      js "Cannot read properties of undefined (reading 'level')" |}
         end
    else Return (preferredLevel preferences) in
  match leveled with
  | Throw e => (Throw e, prefs)
  | Return level =>
    let key := contextKey (context p) in
    let entry :=
      default {| successfulPatterns := []; problematicPatterns := [] |}
              (contextPreferences preferences !! key) in
    let entry :=
      if (userRating p <=? 2)%Z
      then {| successfulPatterns := successfulPatterns entry;
              problematicPatterns :=
                problematicPatterns entry
                ++ [ {| markPattern := js "low_rating"; markTimestamp := stamp |} ] |}
      else if (4 <=? userRating p)%Z
      then {| successfulPatterns :=
                successfulPatterns entry
                ++ [ {| markPattern := js "high_rating"; markTimestamp := stamp |} ];
              problematicPatterns := problematicPatterns entry |}
      else entry in
    (Return (),
     <[ userId :=
          {| preferredLevel := level;
             preferredStyle := preferredStyle preferences;
             avoidPatterns := avoidPatterns preferences;
             favoritePatterns := favoritePatterns preferences;
             contextPreferences :=
               <[ key := entry ]> (contextPreferences preferences) |} ]> prefs)
  end.

(** The patterns [processFeedback] leaves: the extractors run before the
    preferences are touched. *)
Definition learnFrom (p : Payload) (patterns : gmap (list N) LearningPattern)
    : gmap (list N) LearningPattern :=
  let patterns :=
    if (userRating p <=? 2)%Z then extractNegativeFeedbackPatterns p patterns
    else if (4 <=? userRating p)%Z then extractPositiveFeedbackPatterns p patterns
    else patterns in
  if truthy (userCorrection p) then extractCorrectionPatterns p patterns
  else patterns.

Section Learner.

(** The identifier scheme ([btoa] over the encoded texts, or the hash it
    falls back to) is the environment's. *)
Variable generateFeedbackId : list N -> list N -> Z -> list N.

(** [processFeedback] of the feedback stored under [feedbackId]: the
    [try] block ends with [feedback.processed = true], which an exception
    skips. *)
Definition processFeedback (feedbackId : list N) (s : State) : State :=
  match feedbackData s !! feedbackId with
  | None => s
  | Some feedback =>
    let patterns := learnFrom (payload feedback) (learningPatterns s) in
    let '(outcome, prefs) :=
      updateUserPreferences (payload feedback) (fTimestamp feedback)
        (userPreferences s) in
    let done :=
      match outcome with
      | Return _ => true
      | Throw _ => processed feedback
      end in
    {| feedbackData :=
         <[ feedbackId :=
              {| id := id feedback; payload := payload feedback;
                 fTimestamp := fTimestamp feedback;
                 fFeedbackType := fFeedbackType feedback;
                 processed := done;
                 qualityMetrics := qualityMetrics feedback |} ]> (feedbackData s);
       learningPatterns := patterns;
       userPreferences := prefs |}
  end.

(** [collectFeedback(feedbackData)]; [now] is [Date.now()], the default of
    the timestamp.  Persisting to the storage does not change the state. *)
Definition collectFeedback (now : Z) (p : Payload) (s : State) : list N * State :=
  let stamp := default now (timestamp p) in
  let feedbackId := generateFeedbackId (originalText p) (convertedText p) stamp in
  let feedback :=
    {| id := feedbackId; payload := p; fTimestamp := stamp;
       fFeedbackType := default (js "rating") (feedbackType p);
       processed := false;
       qualityMetrics := calculateFeedbackMetrics p |} in
  let s :=
    {| feedbackData := <[ feedbackId := feedback ]> (feedbackData s);
       learningPatterns := learningPatterns s;
       userPreferences := userPreferences s |} in
  (feedbackId, processFeedback feedbackId s).

End Learner.

End FeedbackLearning.

(** ** Notions used to state the properties *)

Module EngineSpec.
Import ContextAnalyzer Random Exn Engine.

(** A list of scored candidates in which no score exceeds an earlier one. *)
Inductive Descending : list (Candidate * Q) -> Prop :=
| Descending_nil : Descending []
| Descending_cons x l :
    (forall y, In y l -> (snd y <= snd x)%Q) -> Descending l -> Descending (x :: l).

(** The levels a caller may ask for. *)
Definition inRange (l : Z) : Prop := (1 <= l <= 5)%Z.

(** The level the fixed rules reach before the learned preference. *)
Definition ruleLevel (context : Context) : Z :=
  if bool_decide (relationship context = Some (js "superior")
                  \/ formalityLevel context = js "very-casual")
  then 4%Z else 3%Z.

(** A candidate is at the target level, or is a level variation. *)
Definition wellLeveled (target : Z) (c : Candidate) : Prop :=
  level c = target
  \/ (approach c = js "level-variation" /\ confidence c = 0.80%Q).

Definition hasSentenceCandidate (target : Z) (l : list Candidate) : Prop :=
  exists c, In c l /\ approach c = js "sentence-generation"
            /\ level c = target /\ confidence c = 0.90%Q.

(** Inputs used to run the model. *)
Definition quietSource : Source := {| draws := fun _ => 0%N; cursor := 0 |}.

Definition noon : Clock :=
  {| startTime := 0; hours := 12; storedAt := js "2024-01-01T12:00:00.000Z";
     endTime := 1; finishedAt := js "2024-01-01T12:00:00.001Z" |}.

Definition noOptions : Options :=
  {| optLevel := None; preferredApproach := None |}.

Definition levelOnly (l : Z) : Options :=
  {| optLevel := Some l; preferredApproach := None |}.

Definition stackOverflow : Error :=
  {| errorMessage := js "Maximum call stack size exceeded" |}.

Definition failingGeneration : Faults :=
  fun step =>
    match step with
    | GenerateConversions => Some stackOverflow
    | _ => None
    end.

End EngineSpec.

Module AnalyzerSpec.
Import ContextAnalyzer.

(** The values the analyzer gives each categorical field. *)
Definition intentValues : list (list N) :=
  map js ["request"; "question"; "report"; "apology"; "greeting"; "complaint";
          "unknown"].

(** The values the specification lists for the intent. *)
Definition statedIntentValues : list (list N) :=
  map js ["request"; "question"; "report"; "apology"; "greeting"; "complaint";
          "appreciation"; "general"].

Definition urgencyValues : list (list N) := map js ["urgent"; "normal"; "relaxed"].

Definition relationshipValues : list (list N) :=
  map js ["superior"; "colleague"; "subordinate"; "customer"; "unknown"].

Definition situationValues : list (list N) :=
  map js ["business"; "technical"; "casual"; "general"].

Definition formalityValues : list (list N) :=
  map js ["very-formal"; "formal"; "neutral"; "casual"; "very-casual"].

(** [result] is the choice by highest score among [scores]: ['unknown']
    when every score is 0, else the first key, in the order of the table,
    whose score no other key exceeds. *)
Definition chosenByScore (scores : list (list N * Z)) (result : option (list N))
    : Prop :=
  (Forall (fun e => snd e = 0%Z) scores /\ result = Some (js "unknown"))
  \/ exists pre k m post,
       scores = pre ++ (k, m) :: post /\ result = Some k /\ (0 < m)%Z
       /\ Forall (fun e => (snd e < m)%Z) pre
       /\ Forall (fun e => (snd e <= m)%Z) post.

(** Some pattern of [timePatterns] occurs in the text. *)
Definition mentionsTime (text : list N) : bool :=
  existsb (fun kp => existsb (includes text) (snd kp)) timePatterns.

(** The part of the day an hour of the clock falls in. *)
Definition hourBand (hour : Z) : list N :=
  if (hour <? 12)%Z then js "morning"
  else if (hour <? 18)%Z then js "afternoon"
  else js "evening".

End AnalyzerSpec.

Module ConverterSpec.
Import ContextAnalyzer WordConverter.

(** A map overlaid with another: the entry of the overlay replaces the
    entry of the base under the same key. *)
Definition overlay (base over : list N -> option (list N)) (k : list N)
    : option (list N) :=
  match over k with
  | Some v => Some v
  | None => base k
  end.

(** The phrase map as the specification words it: the base map overlaid
    with the business, then the urgent, then the superior map, each when
    the context calls for it. *)
Definition statedPhraseMap (context : option Context) (k : list N)
    : option (list N) :=
  match context with
  | None => get phrases k
  | Some c =>
    let m := get phrases in
    let m := if decide (situation c = js "business")
             then overlay m (get contextualBusiness) else m in
    let m := if decide (urgency c = js "urgent")
             then overlay m (get contextualUrgent) else m in
    let m := if decide (relationship c = Some (js "superior"))
             then overlay m (get contextualSuperior) else m in
    m k
  end.

End ConverterSpec.

Module GeneratorSpec.
Import ContextAnalyzer Random SentenceGenerator.

(** The candidate of the level loop for one level. *)
Definition levelCandidate (l : Z) (t : list N) : Variation :=
  {| level := l; text := t; description := getLevelDescription l;
     characteristics := Some (getLevelCharacteristics l); style := None |}.

(** A style variant. *)
Definition styleCandidate (l : Z) (t label name : list N) : Variation :=
  {| level := l; text := t; description := label; characteristics := None;
     style := Some name |}.

End GeneratorSpec.

Module LearnerSpec.
Import FeedbackLearning.

(** One pattern a payload teaches, with the constants of the extractor
    that finds it. *)
Record Lesson := {
  kind : list N;
  cap : Q;
  step : Q;
  found : Found
}.

(** The key the extractors store a lesson under. *)
Definition keyOf (l : Lesson) : list N :=
  kind l ++ js "_" ++ foundType (found l) ++ js "_" ++ foundPattern (found l).

Definition negativeKey (f : Found) : list N :=
  js "negative" ++ js "_" ++ foundType f ++ js "_" ++ foundPattern f.

(** The lessons of a payload, in the order [processFeedback] learns them. *)
Definition lessons (p : Payload) : list Lesson :=
  (if (userRating p <=? 2)%Z
   then map (fun f => {| kind := js "negative"; cap := 0.95%Q; step := 0.1%Q;
                         found := f |})
            (identifyProblematicPatterns (originalText p) (convertedText p))
   else if (4 <=? userRating p)%Z
   then map (fun f => {| kind := js "positive"; cap := 0.95%Q; step := 0.15%Q;
                         found := f |})
            (identifySuccessfulPatterns (originalText p) (convertedText p))
   else [])
  ++ (if truthy (userCorrection p)
      then map (fun f => {| kind := js "correction"; cap := 0.9%Q;
                            step := 0.2%Q; found := f |})
               (analyzeCorrectionDifferences (convertedText p)
                  (default [] (userCorrection p)))
      else []).

(** The keys of the learning patterns that result from a payload. *)
Definition learnedKeys (p : Payload) : list (list N) := map keyOf (lessons p).

Definition teach (ctx : option ContextValue)
    (m : gmap (list N) LearningPattern) (l : Lesson)
    : gmap (list N) LearningPattern :=
  learn (kind l) (cap l) (step l) ctx m (found l).

(** The types of the patterns [identifyProblematicPatterns] reports. *)
Definition problemTypes : list (list N) :=
  map js ["excessive_politeness"; "unnatural_repetition";
          "incomplete_conversion"; "excessive_expansion"].

Definition negativeLesson (f : Found) : Lesson :=
  {| kind := js "negative"; cap := 0.95%Q; step := 0.1%Q; found := f |}.

(** How often a list of lessons touches a key, and the last that does. *)
Fixpoint hits (k : list N) (L : list Lesson) : Z :=
  match L with
  | [] => 0
  | l :: rest => ((if decide (keyOf l = k) then 1 else 0) + hits k rest)%Z
  end.

Fixpoint lastOf (k : list N) (L : list Lesson) : option Lesson :=
  match L with
  | [] => None
  | l :: rest =>
    match lastOf k rest with
    | Some x => Some x
    | None => if decide (keyOf l = k) then Some l else None
    end
  end.

(** The occurrences stored under a key, 0 when the key is absent. *)
Definition occurrencesAt (m : gmap (list N) LearningPattern) (k : list N) : Z :=
  default 0%Z (occurrences <$> m !! k).

(** A confidence at one of the caps: 0.95 for negative and positive
    patterns, 0.9 for corrections. *)
Definition saturated (lp : LearningPattern) : Prop :=
  (confidence lp == 0.95)%Q \/ (confidence lp == 0.9)%Q.

(** A payload whose converted text repeats itself, rated 1. *)
Definition repetitivePayload : Payload :=
  {| originalText := js "確認して";
     convertedText := js "ご確認ご確認ご確認いただけますでしょうか";
     userRating := 1; userCorrection := None; context := None;
     options := None; timestamp := None; feedbackType := None |}.

Definition repetitionFound : Found :=
  {| foundType := js "unnatural_repetition";
     foundPattern := js "ご確認ご確認ご確認"; foundTo := None;
     grade := Some (js "medium") |}.

Definition constantId (original converted : list N) (stamp : Z) : list N :=
  js "feedback".

End LearnerSpec.

(** ** Rewriting a text by rules

    Every pass of the word converter replaces occurrences of fixed
    strings by fixed strings; [Rewrites rules t t'] says [t'] is [t] with
    some non-overlapping occurrences of left sides replaced by their right
    sides. *)

Module Rewriting.

Inductive Rewrites (rules : list (list N * list N)) : list N -> list N -> Prop :=
| Rewrites_nil : Rewrites rules [] []
| Rewrites_keep c t t' :
    Rewrites rules t t' -> Rewrites rules (c :: t) (c :: t')
| Rewrites_subst lit lit' t t' :
    In (lit, lit') rules -> Rewrites rules t t' ->
    Rewrites rules (lit ++ t) (lit' ++ t').

(** Two strings agree on the length of the shorter. *)
Fixpoint agreeHead (a b : list N) : bool :=
  match a, b with
  | x :: a', y :: b' => (x =? y)%N && agreeHead a' b'
  | _, _ => true
  end.

(** Some occurrence of [k] and some occurrence of [p] can share a code
    unit: a proper suffix of [k] agrees with the head of [p], or [k] agrees
    with a suffix of [p]. *)
Definition overlaps (k p : list N) : bool :=
  existsb (fun n => agreeHead (drop n k) p) (seq 1 (length k - 1))
  || existsb (fun d => agreeHead k (drop d p)) (seq 0 (length p)).

End Rewriting.

Module DictionarySpec.
Import ContextAnalyzer WordConverter Rewriting.

(** The phrase sets of the eight combinations of overlays. *)
Definition allPhraseSets : list (list (list N * list N)) :=
  let opt (b : bool) over base := if b then spread base over else base in
  flat_map (fun b1 => flat_map (fun b2 => map (fun b3 =>
     opt b3 contextualSuperior
       (opt b2 contextualUrgent (opt b1 contextualBusiness phrases)))
     [false; true]) [false; true]) [false; true].

(** The replacements of the five regular expressions of
    [handleSpecialPatterns], and the ending its last one appends. *)
Definition patternRules : list (list N * list N) :=
  [ (js "だっけ？", js "でしたでしょうか？"); (js "じゃん", js "ですね");
    (js "だよね", js "ですよね"); (js "って言って", js "とお伝えください");
    (js "なんで", js "なぜ"); (js "？", js "のでしょうか？") ].

Definition requestEnding : list N := js "をお願いします".

(** The rules that run after the word [K] became [P] leave both alone: no
    left side overlaps [P], no right side overlaps [K], none rewrites [K]. *)
Definition laterOk (K P : list N) (rules : list (list N * list N)) : bool :=
  forallb (fun r => negb (overlaps (fst r) P) && negb (overlaps K (snd r))
                    && negb (eqb (fst r) K)) rules.

(** The rules that run before leave the occurrences of [K] alone. *)
Definition earlierOk (K : list N) (rules : list (list N * list N)) : bool :=
  forallb (fun r => negb (overlaps (fst r) K) && negb (eqb (fst r) K)) rules.

(** The entry [(K, P)] of the dictionary, after the entries [pre] and
    before [post], is dependable: no other substitution of the three passes
    can touch an occurrence of [K] before its turn, produce [K] after it,
    or touch [P]. *)
Definition dependable (pre : list (list N * list N)) (K P : list N)
    (post : list (list N * list N)) : bool :=
  earlierOk K pre && negb (eqb K []) && negb (eqb P [])
  && negb (overlaps K P)
  && laterOk K P post && forallb (laterOk K P) allPhraseSets
  && laterOk K P patternRules && negb (overlaps K requestEnding).

Fixpoint dependableFrom (pre rest : list (list N * list N))
    : list (list N * list N) :=
  match rest with
  | [] => []
  | (K, P) :: post =>
    (if dependable pre K P post then [(K, P)] else [])
    ++ dependableFrom (pre ++ [(K, P)]) post
  end.

(** The dependable entries of the word dictionary. *)
Abbreviation dependableWords := (dependableFrom [] words).

(** The entries of a log for the word [K]. *)
Definition entriesFor (K : list N) (log : list Conversion) : list Conversion :=
  filter (fun e => original e = K) log.

(** The log entry of a word substitution. *)
Definition wordEntry (casual polite : list N) (n : Z) : Conversion :=
  {| ctype := js "word"; original := casual; converted := polite;
     count := Some n; reason := js "カジュアルな表現を丁寧な言葉に変換";
     context := None |}.

(** The state of a pass before the turn of the word [K]: the text still
    holds [K] and the log has no entry for it. *)
Definition awaiting (K : list N) (acc : list N * list Conversion) : Prop :=
  includes acc.1 K = true /\ entriesFor K acc.2 = [].

(** The state after: the text holds [P] and not [K], and the log has one
    entry for [K], of a word with a count of at least 1. *)
Definition settled (K P : list N) (acc : list N * list Conversion) : Prop :=
  includes acc.1 P = true /\ includes acc.1 K = false
  /\ exists e n, entriesFor K acc.2 = [e] /\ ctype e = js "word"
                 /\ converted e = P /\ count e = Some n /\ (1 <= n)%Z.

End DictionarySpec.

(** ** Basic facts on strings *)

Lemma eqb_eq (a b : list N) : eqb a b = true <-> a = b.
Proof.
  revert b; induction a as [|x a IH]; intros [|y b]; simpl; try (split; congruence).
  rewrite andb_true_iff, N.eqb_eq, IH. split; [intros [-> ->]; reflexivity | intros [= -> ->]; auto].
Qed.

Lemma eqb_refl (a : list N) : eqb a a = true.
Proof. apply eqb_eq; reflexivity. Qed.

Lemma eqb_neq (a b : list N) : eqb a b = false <-> a <> b.
Proof.
  rewrite <- eqb_eq. destruct (eqb a b); split; congruence.
Qed.

Lemma startsWith_app (p t : list N) : startsWith p t = true <-> exists r, t = p ++ r.
Proof.
  revert t; induction p as [|x p IH]; intros t; simpl.
  - split; eauto.
  - destruct t as [|y t].
    + split; [discriminate | intros [r [=]]].
    + rewrite andb_true_iff, N.eqb_eq, IH. split.
      * intros [-> [r ->]]. eauto.
      * intros [r [= -> ->]]. eauto.
Qed.

Lemma includes_app (t p : list N) :
  includes t p = true <-> exists a b, t = a ++ p ++ b.
Proof.
  induction t as [|c t IH]; simpl.
  - rewrite orb_false_r, startsWith_app. split.
    + intros [r ->]. exists [], r. reflexivity.
    + intros (a & b & H). destruct a; simpl in H.
      * eauto.
      * discriminate.
  - rewrite orb_true_iff, startsWith_app, IH. split.
    + intros [[r ->] | (a & b & ->)].
      * exists [], r. reflexivity.
      * exists (c :: a), b. reflexivity.
    + intros (a & b & H). destruct a as [|c' a]; simpl in H.
      * left; eauto.
      * injection H as -> ->. right; eauto.
Qed.

Module QualityFacts.
Import QualityAssessment.

Lemma weightOf_axes :
  weightOf (js "naturalness") = 0.3%Q /\ weightOf (js "intentPreservation") = 0.3%Q
  /\ weightOf (js "appropriateness") = 0.25%Q /\ weightOf (js "completeness") = 0.15%Q.
Proof. repeat split; reflexivity. Qed.

Lemma Qle_bool_false (a b : Q) : Qle_bool a b = false -> (b < a)%Q.
Proof.
  intros H. apply Qnot_le_lt. rewrite <- Qle_bool_iff. congruence.
Qed.

End QualityFacts.

Module EngineFacts.
Import ContextAnalyzer Random Exn Engine EngineSpec.

(** *** The stable sort puts a highest score first *)

Lemma insertByScore_In x l y :
  In y (insertByScore x l) <-> y = x \/ In y l.
Proof.
  induction l as [|z l IH]; simpl.
  - intuition.
  - destruct (Qlt_le_dec (snd x) (snd z)); simpl; rewrite ?IH; intuition.
Qed.

Lemma sortByScore_In l y : In y (sortByScore l) <-> In y l.
Proof.
  induction l as [|x l IH]; simpl; [reflexivity|].
  rewrite insertByScore_In, IH. intuition.
Qed.

Lemma insertByScore_Descending x l :
  Descending l -> Descending (insertByScore x l).
Proof.
  induction 1 as [|z l Hz Hl IH]; simpl.
  - constructor; [intros ? [] | constructor].
  - destruct (Qlt_le_dec (snd x) (snd z)) as [Hlt | Hle].
    + constructor; [|exact IH].
      intros y Hy. apply insertByScore_In in Hy as [-> | Hy].
      * apply Qlt_le_weak, Hlt.
      * apply Hz, Hy.
    + constructor; [|constructor; assumption].
      intros y [<- | Hy]; [exact Hle|].
      eapply Qle_trans; [apply Hz, Hy | exact Hle].
Qed.

Lemma sortByScore_Descending l : Descending (sortByScore l).
Proof.
  induction l; simpl; [constructor | apply insertByScore_Descending; assumption].
Qed.

Lemma head_sortByScore l x :
  head (sortByScore l) = Some x ->
  In x l /\ forall y, In y l -> (snd y <= snd x)%Q.
Proof.
  intros H. pose proof (sortByScore_Descending l) as D.
  destruct (sortByScore l) as [|z s] eqn:E; [discriminate|].
  injection H as ->. split.
  - apply sortByScore_In. rewrite E. left; reflexivity.
  - intros y Hy. apply sortByScore_In in Hy. rewrite E in Hy.
    inversion D; subst. destruct Hy as [<- | Hy]; [apply Qle_refl | auto].
Qed.

(** *** The target level *)

Lemma determineTargetLevel_explicit prefs context options l :
  optLevel options = Some l -> inRange l ->
  determineTargetLevel prefs context options = l.
Proof.
  intros E [H1 H2]. unfold determineTargetLevel. rewrite E. simpl.
  replace (l =? 0)%Z with false by (symmetry; apply Z.eqb_neq; lia).
  replace (1 <=? l)%Z with true by (symmetry; apply Z.leb_le; lia).
  replace (l <=? 5)%Z with true by (symmetry; apply Z.leb_le; lia).
  reflexivity.
Qed.

Lemma determineTargetLevel_auto prefs context options :
  (optLevel options = None
   \/ exists l, optLevel options = Some l /\ ~ inRange l) ->
  determineTargetLevel prefs context options
  = Z.min 5 (Z.max (ruleLevel context) (defaultLevel prefs)).
Proof.
  intros H. unfold determineTargetLevel, ruleLevel.
  assert (match optLevel options with
          | Some l => negb (l =? 0)%Z && (1 <=? l)%Z && (l <=? 5)%Z
          | None => false
          end = false) as ->.
  { destruct H as [-> | (l & -> & Hl)]; [reflexivity|].
    unfold inRange in Hl.
    destruct (1 <=? l)%Z eqn:E1; [|rewrite andb_false_r; reflexivity].
    destruct (l <=? 5)%Z eqn:E2; [|apply andb_false_r].
    apply Z.leb_le in E1, E2. lia. }
  cbv zeta.
  destruct (eqb (formalityLevel context) (js "very-casual")) eqn:Ef;
    [apply eqb_eq in Ef | apply eqb_neq in Ef];
  destruct (eqb (urgency context) (js "urgent"));
  destruct (eqb (situation context) (js "business"));
  destruct (defaultLevel prefs =? 0)%Z eqn:Ed;
    try (apply Z.eqb_eq in Ed; rewrite Ed);
  repeat case_bool_decide; simpl; try lia; exfalso;
  try tauto; intuition congruence.
Qed.

(** *** The candidates and the one selected *)

Lemma generateConversions_shape originalText context target g :
  let conversions := fst (generateConversions originalText context target g) in
  hasSentenceCandidate target conversions
  /\ Forall (wellLeveled target) conversions.
Proof.
  unfold generateConversions, mbind, gen_bind, mret, gen_ret.
  generalize (WordConverter.convertText originalText (Some context)). intros wc.
  destruct (SentenceGenerator.generatePoliteVersion _ _ _ g) as [t1 g1].
  destruct (SentenceGenerator.generateVariations _ _ _ g1) as [vs g2].
  assert (Forall (wellLeveled target)
            (map (fun variation =>
                    {| approach := js "level-variation";
                       text := SentenceGenerator.text variation;
                       level := SentenceGenerator.level variation;
                       confidence := 0.80%Q; details := None;
                       description := SentenceGenerator.description variation;
                       characteristics :=
                         SentenceGenerator.characteristics variation |}) vs))
    as Hvs.
  { apply List.Forall_forall. intros c Hc. apply in_map_iff in Hc as (v & <- & _).
    right. split; reflexivity. }
  destruct (negb (eqb (situation context) (js "general"))).
  - destruct (generateContextOptimizedVersion _ _ _ g2) as [t2 g3]. cbn [fst app]. split.
    + eexists. split; [right; left; reflexivity|]. repeat split.
    + constructor; [left; reflexivity|]. constructor; [left; reflexivity|].
      apply Forall_app. split; [exact Hvs|].
      constructor; [left; reflexivity | constructor].
  - cbn [fst app]. split.
    + eexists. split; [right; left; reflexivity|]. repeat split.
    + constructor; [left; reflexivity|]. constructor; [left; reflexivity|].
      exact Hvs.
Qed.

Lemma score_sentence prefs c context options :
  approach c = js "sentence-generation" ->
  level c = determineTargetLevel prefs context options ->
  confidence c = 0.90%Q ->
  (100 <= scoreConversion prefs c context options)%Q.
Proof.
  intros Ha Hl Hc. unfold scoreConversion. rewrite Ha, Hl, Hc, Z.sub_diag.
  rewrite eqb_refl.
  replace (eqb (js "sentence-generation") (js "context-optimized")) with false
    by reflexivity.
  cbv zeta.
  change (Z.abs 0) with 0%Z.
  destruct (_ && _); unfold inject_Z; lra.
Qed.

Lemma score_variation prefs c context options :
  approach c = js "level-variation" ->
  confidence c = 0.80%Q ->
  level c <> determineTargetLevel prefs context options ->
  (scoreConversion prefs c context options <= 95)%Q.
Proof.
  intros Ha Hc Hl. unfold scoreConversion. rewrite Ha, Hc.
  replace (eqb (js "level-variation") (js "sentence-generation")) with false
    by reflexivity.
  replace (eqb (js "level-variation") (js "context-optimized")) with false
    by reflexivity.
  cbv zeta.
  assert (1 <= inject_Z (Z.abs (level c - determineTargetLevel prefs context options)))%Q.
  { change 1%Q with (inject_Z 1). rewrite <- Zle_Qle. lia. }
  destruct (_ && _); lra.
Qed.

Lemma selectBestConversion_level prefs conversions context options c :
  preferredApproach options = None ->
  hasSentenceCandidate (determineTargetLevel prefs context options) conversions ->
  Forall (wellLeveled (determineTargetLevel prefs context options)) conversions ->
  selectBestConversion prefs conversions context options = Some c ->
  level c = determineTargetLevel prefs context options.
Proof.
  intros Hp (c0 & Hin0 & Ha0 & Hl0 & Hc0) Hall Hsel.
  unfold selectBestConversion in Hsel. rewrite Hp in Hsel.
  destruct (head _) as [[c' q]|] eqn:Eh; [|discriminate].
  injection Hsel as ->.
  apply head_sortByScore in Eh as [Hin Hmax].
  apply in_map_iff in Hin as (c1 & [= -> <-] & Hin).
  rewrite List.Forall_forall in Hall. destruct (Hall c Hin) as [Hl | [Ha Hc]]; [exact Hl|].
  destruct (decide (level c = determineTargetLevel prefs context options))
    as [Hl | Hl]; [exact Hl | exfalso].
  pose proof (score_variation prefs c context options Ha Hc Hl) as Hlow.
  pose proof (score_sentence prefs c0 context options Ha0 Hl0 Hc0) as Hhigh.
  specialize (Hmax (c0, scoreConversion prefs c0 context options)).
  simpl in Hmax. 
  assert (scoreConversion prefs c0 context options
          <= scoreConversion prefs c context options)%Q as Hle.
  { apply Hmax. apply in_map_iff. exists c0. split; [reflexivity | exact Hin0]. }
  lra.
Qed.

(** *** [convertText] settles to a result *)

Lemma convertText_outcome faults clock originalText options s g :
  convertText faults clock originalText options s g
  = let '(outcome, s', g') :=
      convertBody faults clock originalText options s g in
    (Return (match outcome with
             | Return r => r
             | Throw e => createFallbackResponse clock originalText e
             end), s', g').
Proof.
  unfold convertText.
  destruct (convertBody faults clock originalText options s g) as [[[r | e] s'] g'];
    reflexivity.
Qed.

(** Without a preferred approach the result is at the target level, or is
    the fallback. *)
Lemma convertBody_level faults clock originalText options s g r :
  preferredApproach options = None ->
  (convertBody faults clock originalText options s g).1.1 = Return r ->
  rLevel r
  = determineTargetLevel (userPreferences s)
      (analyzeContext (hours clock) originalText) options.
Proof.
  intros Hp. unfold convertBody, attempt.
  destruct (faults AnalyzeContext); [discriminate|].
  destruct (faults DetermineTargetLevel); [discriminate|].
  destruct (faults GenerateConversions); [discriminate|].
  pose proof (generateConversions_shape originalText
                (analyzeContext (hours clock) originalText)
                (determineTargetLevel (userPreferences s)
                   (analyzeContext (hours clock) originalText) options) g)
    as [Hs Hall].
  destruct (generateConversions _ _ _ g) as [conversions g1]. simpl in Hs, Hall.
  destruct (faults SelectBestConversion); [discriminate|].
  destruct (selectBestConversion _ conversions _ options) as [c|] eqn:Esel;
    [|discriminate].
  simpl readOf.
  destruct (faults GenerateSuggestions); [discriminate|].
  destruct (faults StoreConversion); [discriminate|].
  destruct (faults AnalyzeImprovements); [discriminate|].
  simpl. intros [= <-]. simpl.
  eapply selectBestConversion_level; eassumption.
Qed.
End EngineFacts.

Module EngineClaims.
Import ContextAnalyzer Random Exn Engine EngineSpec EngineFacts.

(** C1. For every input and whatever statement of the [try] block raises,
    [convertText] settles to a result and never to an exception; when the
    block raised, the result is the fallback: the original text followed
    by "をお願いします。", level 2, confidence 0.3, one suggestion of type
    error, and the message of the error in the metadata. *)
Theorem convert_never_throws faults clock originalText options s g :
  exists r s' g',
    convertText faults clock originalText options s g = (Return r, s', g')
    /\ forall e,
         (convertBody faults clock originalText options s g).1.1 = Throw e ->
         r = createFallbackResponse clock originalText e
         /\ rConverted r = originalText ++ js "をお願いします。"
         /\ rLevel r = 2%Z
         /\ aConfidence (rAnalysis r) = 0.3%Q
         /\ (exists sg, rSuggestions r = [sg] /\ stype sg = js "error")
         /\ mError (rMetadata r) = Some (errorMessage e).
Proof.
  rewrite convertText_outcome.
  destruct (convertBody faults clock originalText options s g)
    as [[[r | e0] s'] g'].
  - exists r, s', g'. split; [reflexivity|]. simpl. discriminate.
  - eexists _, s', g'. split; [reflexivity|]. simpl. intros e [= ->].
    repeat split. eexists. split; reflexivity.
Qed.

Lemma convert_never_throws_witness :
  exists r,
    (convertText failingGeneration noon [] noOptions initial quietSource).1.1
    = Return r
    /\ rConverted r = js "をお願いします。"
    /\ mError (rMetadata r) = Some (errorMessage stackOverflow).
Proof.
  destruct (convert_never_throws failingGeneration noon [] noOptions initial
              quietSource) as (r & s' & g' & E & H).
  exists r. rewrite E. split; [reflexivity|].
  destruct (H stackOverflow) as (_ & Hc & _ & _ & _ & He).
  - vm_compute. reflexivity.
  - split; [exact Hc | exact He].
Defined.

(** C2, as stated, fails: a level outside 1..5 is given and not returned. *)
Lemma explicit_level_out_of_range_ignored :
  determineTargetLevel loadUserPreferences (analyzeContext 12 []) (levelOnly 7)
  <> 7%Z.
Proof. vm_compute. discriminate. Qed.

(** C2, amended. A level given within 1..5 is returned outright; otherwise
    (none given, or one out of range) the level is the learned default
    raised to the level of the rules, 4 for a superior or very casual text
    and 3 else, and clamped to 5.  With options [{level: 2}] the result for
    "アプデしといてくれる？" has level 2. *)
Theorem target_level_resolution prefs context options :
  let r := determineTargetLevel prefs context options in
  (forall l, optLevel options = Some l -> inRange l -> r = l)
  /\ ((optLevel options = None
       \/ exists l, optLevel options = Some l /\ ~ inRange l) ->
      r = Z.min 5 (Z.max (ruleLevel context) (defaultLevel prefs))
      /\ (3 <= r <= 5)%Z
      /\ (relationship context = Some (js "superior") -> (4 <= r)%Z)
      /\ (formalityLevel context = js "very-casual" -> (4 <= r)%Z)
      /\ (Z.min 5 (defaultLevel prefs) <= r)%Z)
  /\ forall faults clock s g, exists res s' g',
       convertText faults clock (js "アプデしといてくれる？") (levelOnly 2) s g
       = (Return res, s', g')
       /\ rLevel res = 2%Z.
Proof.
  cbv zeta. split; [|split].
  - intros l E Hl. apply determineTargetLevel_explicit; assumption.
  - intros H. rewrite (determineTargetLevel_auto _ _ _ H). unfold ruleLevel.
    case_bool_decide as Hd; (split; [reflexivity|]); repeat split; try lia;
      intros; exfalso; tauto.
  - intros faults clock s g. rewrite convertText_outcome.
    pose proof (convertBody_level faults clock (js "アプデしといてくれる？")
                  (levelOnly 2) s g) as Hl.
    destruct (convertBody _ _ _ _ s g) as [[[r | e] s'] g'].
    + exists r, s', g'. split; [reflexivity|].
      rewrite (Hl r eq_refl eq_refl).
      apply determineTargetLevel_explicit; [reflexivity | unfold inRange; lia].
    + eexists _, s', g'. split; reflexivity.
Qed.

Lemma target_level_resolution_witness :
  determineTargetLevel loadUserPreferences
    (analyzeContext 12 (js "部長、確認して")) (levelOnly 2) = 2%Z
  /\ determineTargetLevel loadUserPreferences
       (analyzeContext 12 (js "部長、確認して")) noOptions = 4%Z.
Proof.
  pose proof (target_level_resolution loadUserPreferences
                (analyzeContext 12 (js "部長、確認して")) (levelOnly 2))
    as (H1 & _ & _).
  pose proof (target_level_resolution loadUserPreferences
                (analyzeContext 12 (js "部長、確認して")) noOptions)
    as (_ & H2 & _).
  split.
  - apply H1; [reflexivity | unfold inRange; lia].
  - destruct H2 as (-> & _); [left; reflexivity | vm_compute; reflexivity].
Defined.

End EngineClaims.

Module AnalyzerFacts.
Import ContextAnalyzer AnalyzerSpec.

Lemma matchLength_range p t : (0 <= matchLength p t <= 1)%Z.
Proof. unfold matchLength. destruct (includes t p); lia. Qed.

Lemma fold_score_nonneg patterns text acc :
  (0 <= acc)%Z ->
  (0 <= fold_left (fun a p => a + matchLength p text)%Z patterns acc)%Z.
Proof.
  revert acc. induction patterns as [|p ps IH]; simpl; intros acc H; [exact H|].
  apply IH. pose proof (matchLength_range p text). lia.
Qed.

Lemma scoreOf_nonneg patterns text : (0 <= scoreOf patterns text)%Z.
Proof. apply fold_score_nonneg. lia. Qed.

Lemma scoresOf_nonneg table text :
  Forall (fun e => (0 <= snd e)%Z) (scoresOf table text).
Proof.
  apply List.Forall_forall. intros e He. apply in_map_iff in He as (kp & <- & _).
  apply scoreOf_nonneg.
Qed.

Lemma fold_max_spec rest v :
  let m := fold_left Z.max rest v in
  (v <= m)%Z /\ Forall (fun x => (x <= m)%Z) rest /\ (m = v \/ In m rest).
Proof.
  revert v. induction rest as [|x rest IH]; intros v; simpl.
  - repeat split; [lia | constructor | left; reflexivity].
  - destruct (IH (Z.max v x)) as (H1 & H2 & H3). repeat split.
    + lia.
    + constructor; [lia | exact H2].
    + destruct H3 as [H3 | H3]; [|right; right; exact H3].
      destruct (Z.max_spec v x) as [[_ E] | [_ E]].
      * right; left. rewrite H3. lia.
      * left. rewrite H3. lia.
Qed.

Lemma Math_max_spec values m :
  Math_max values = Some m ->
  Forall (fun x => (x <= m)%Z) values /\ In m values.
Proof.
  destruct values as [|v rest]; [discriminate|]. simpl. intros [= <-].
  destruct (fold_max_spec rest v) as (H1 & H2 & H3). split.
  - constructor; assumption.
  - destruct H3 as [-> | H3]; [left; reflexivity | right; exact H3].
Qed.

(** [find] stops at the first entry whose score is the maximum. *)
Lemma find_first_max (scores : list (list N * Z)) m :
  In m (map snd scores) ->
  exists pre k post,
    scores = pre ++ (k, m) :: post
    /\ find (fun kv => (snd kv =? m)%Z) scores = Some (k, m)
    /\ Forall (fun e => snd e <> m) pre.
Proof.
  induction scores as [|[k v] scores IH]; simpl; [intros []|].
  intros H. destruct (v =? m)%Z eqn:E.
  - apply Z.eqb_eq in E as ->. exists [], k, scores. repeat split. constructor.
  - apply Z.eqb_neq in E. destruct H as [H | H]; [congruence|].
    destruct (IH H) as (pre & k' & post & -> & Hf & Hpre).
    exists ((k, v) :: pre), k', post. repeat split; [exact Hf|].
    constructor; [exact E | exact Hpre].
Qed.

Lemma pickHighest_chosen scores :
  scores <> [] -> Forall (fun e => (0 <= snd e)%Z) scores ->
  exists v, pickHighest scores = Some v /\ chosenByScore scores (Some v)
            /\ (v = js "unknown" \/ In v (map fst scores)).
Proof.
  intros Hne Hpos. unfold pickHighest.
  destruct (Math_max (map snd scores)) as [m|] eqn:Em.
  2:{ destruct scores; [congruence | discriminate]. }
  apply Math_max_spec in Em as [Hle Hin].
  rewrite List.Forall_forall in Hle, Hpos.
  destruct (m =? 0)%Z eqn:E0.
  - apply Z.eqb_eq in E0 as ->. eexists. split; [reflexivity|]. split; [|left; reflexivity].
    left. split; [|reflexivity]. apply List.Forall_forall. intros e He.
    specialize (Hpos e He). specialize (Hle (snd e) (in_map snd _ _ He)). simpl in *. lia.
  - apply Z.eqb_neq in E0.
    destruct (find_first_max scores m Hin) as (pre & k & post & E & Hf & Hpre).
    rewrite Hf. simpl. exists k. split; [reflexivity|]. split.
    + right. exists pre, k, m, post. repeat split; [exact E | | | ].
      * assert (In m (map snd scores)) as Hm by exact Hin.
        apply in_map_iff in Hm as (e & <- & He). specialize (Hpos e He). simpl in *. lia.
      * apply List.Forall_forall. intros e He.
        rewrite List.Forall_forall in Hpre. specialize (Hpre e He).
        assert (snd e <= m)%Z.
        { apply Hle, in_map. rewrite E. apply in_or_app. left; exact He. }
        lia.
      * apply List.Forall_forall. intros e He.
        apply Hle, in_map. rewrite E. apply in_or_app. right; right; exact He.
    + right. rewrite E, map_app. apply in_or_app. right; left; reflexivity.
Qed.

Lemma find_key_In {A} (f : list N * A -> bool) table kp :
  find f table = Some kp -> In (fst kp) (map fst table).
Proof.
  intros H. apply find_some in H as [H _]. apply in_map. exact H.
Qed.

Lemma find_none_existsb {A} (f : A -> bool) l :
  find f l = None <-> existsb f l = false.
Proof.
  induction l as [|x l IH]; simpl; [tauto|].
  destruct (f x); simpl; [split; discriminate | exact IH].
Qed.

(** C3, as stated, fails: the intent of the empty text is none of the
    values the specification lists. *)
Lemma intent_of_empty_text_not_listed :
  ~ exists v, intent (analyzeContext 12 []) = Some v /\ In v statedIntentValues.
Proof.
  intros (v & E & H). vm_compute in E. injection E as <-.
  vm_compute in H. intuition discriminate.
Qed.

(** C3, amended. For every text [analyzeContext] returns a descriptor whose
    intent is one of request, question, report, apology, greeting,
    complaint and unknown, whose urgency, relationship, situation and
    formality are each one of their enumerated values, and whose intent is
    chosen by highest count: unknown when every count is 0, else the first
    intent of the table that reaches the highest count. *)
Theorem analyzeContext_enumerated hour text :
  let d := analyzeContext hour text in
  (exists v, intent d = Some v /\ In v intentValues)
  /\ In (urgency d) urgencyValues
  /\ (exists r, relationship d = Some r /\ In r relationshipValues)
  /\ In (situation d) situationValues
  /\ In (formalityLevel d) formalityValues
  /\ chosenByScore (scoresOf intentPatterns text) (intent d).
Proof.
  cbv zeta. unfold analyzeContext. cbn [intent urgency relationship situation formalityLevel].
  destruct (pickHighest_chosen (scoresOf intentPatterns text))
    as (v & Ev & Hv & Hin); [discriminate | apply scoresOf_nonneg |].
  destruct (pickHighest_chosen (scoresOf relationshipIndicators text))
    as (r & Er & _ & Hrin); [discriminate | apply scoresOf_nonneg |].
  unfold analyzeIntent, estimateRelationship. rewrite Ev, Er.
  repeat split.
  - exists v. split; [reflexivity|].
    destruct Hin as [-> | Hin]; [vm_compute; tauto|].
    clear Hrin. unfold scoresOf in Hin. rewrite map_map in Hin. 
    change (In v (map fst intentPatterns)) in Hin.
    vm_compute in Hin. vm_compute. tauto.
  - unfold detectUrgency.
    destruct (find _ urgencyIndicators) as [kp|] eqn:Ef.
    + apply find_key_In in Ef. vm_compute in Ef. vm_compute. tauto.
    + vm_compute. tauto.
  - exists r. split; [reflexivity|].
    destruct Hrin as [-> | Hr]; [vm_compute; tauto|].
    unfold scoresOf in Hr. rewrite map_map in Hr.
    change (In r (map fst relationshipIndicators)) in Hr.
    vm_compute in Hr. vm_compute. tauto.
  - unfold detectSituation.
    repeat match goal with |- context [if ?b then _ else _] => destruct b end;
      vm_compute; tauto.
  - unfold assessFormality. cbv zeta.
    repeat match goal with |- context [if ?b then _ else _] => destruct b end;
      vm_compute; tauto.
  - exact Hv.
Qed.

(** C9, as stated, fails: the same text analysed at two hours of the day
    gives two descriptors. *)
Lemma analyzeContext_reads_the_clock :
  analyzeContext 9 [] <> analyzeContext 20 [].
Proof. vm_compute. discriminate. Qed.

(** C9, amended. Every field of the descriptor but the time context is a
    function of the text alone; the time context is one too when the text
    mentions a time, and is otherwise the part of the day of the clock, so
    two analyses of a text agree whenever the text mentions a time or the
    two hours fall in the same part of the day. *)
Theorem analyzeContext_depends_on_text_and_hour h1 h2 text :
  let a := analyzeContext h1 text in
  let b := analyzeContext h2 text in
  intent a = intent b /\ urgency a = urgency b
  /\ relationship a = relationship b /\ situation a = situation b
  /\ formalityLevel a = formalityLevel b /\ improvement a = improvement b
  /\ casualWords a = casualWords b
  /\ (mentionsTime text = true -> a = b)
  /\ (mentionsTime text = false -> timeContext a = hourBand h1)
  /\ (hourBand h1 = hourBand h2 -> a = b).
Proof.
  cbv zeta. unfold analyzeContext.
  cbn [intent urgency relationship situation formalityLevel improvement
       casualWords timeContext].
  repeat split.
  - intros H. f_equal. unfold detectTimeContext, mentionsTime in *.
    destruct (find _ timePatterns) eqn:Ef; [reflexivity|].
    apply find_none_existsb in Ef. congruence.
  - intros H. unfold detectTimeContext, mentionsTime in *.
    apply find_none_existsb in H. rewrite H. reflexivity.
  - intros H. f_equal. unfold detectTimeContext.
    destruct (find _ timePatterns); [reflexivity | exact H].
Qed.

Lemma analyzeContext_depends_on_text_and_hour_witness :
  analyzeContext 9 (js "おはよう") = analyzeContext 20 (js "おはよう")
  /\ timeContext (analyzeContext 20 []) = js "evening"
  /\ analyzeContext 13 [] = analyzeContext 17 [].
Proof.
  destruct (analyzeContext_depends_on_text_and_hour 9 20 (js "おはよう"))
    as (_ & _ & _ & _ & _ & _ & _ & H1 & _ & _).
  destruct (analyzeContext_depends_on_text_and_hour 20 20 [])
    as (_ & _ & _ & _ & _ & _ & _ & _ & H2 & _).
  destruct (analyzeContext_depends_on_text_and_hour 13 17 [])
    as (_ & _ & _ & _ & _ & _ & _ & _ & _ & H3).
  split; [|split].
  - apply H1. vm_compute. reflexivity.
  - rewrite H2; vm_compute; reflexivity.
  - apply H3. vm_compute. reflexivity.
Defined.

End AnalyzerFacts.

Module GeneratorFacts.
Import ContextAnalyzer Random SentenceGenerator GeneratorSpec.

(** C5, as stated, fails: the candidates are six, not seven. *)
Lemma generateVariations_not_seven :
  length (generateVariations (js "アプデしといてくれる？")
            (analyzeContext 12 (js "アプデしといてくれる？")) 3
            EngineSpec.quietSource).1 <> 7.
Proof. vm_compute. discriminate. Qed.

(** C5, amended. [generateVariations] returns exactly six candidates: one
    for each level 2, 3, 4, 5, generated in that order from the same text
    and context, then two style variants at the base level, the first with
    the situation forced to business and the relationship to superior, the
    second with casual and colleague. *)
Theorem generateVariations_six originalText context baseLevel g :
  let r2 := generatePoliteVersion originalText context 2 g in
  let r3 := generatePoliteVersion originalText context 3 r2.2 in
  let r4 := generatePoliteVersion originalText context 4 r3.2 in
  let r5 := generatePoliteVersion originalText context 5 r4.2 in
  let rb := generatePoliteVersion originalText
              (withFraming context (js "business") (js "superior"))
              baseLevel r5.2 in
  let rf := generatePoliteVersion originalText
              (withFraming context (js "casual") (js "colleague"))
              baseLevel rb.2 in
  generateVariations originalText context baseLevel g
  = ([ levelCandidate 2 r2.1; levelCandidate 3 r3.1; levelCandidate 4 r4.1;
       levelCandidate 5 r5.1;
       styleCandidate baseLevel rb.1 (js "ビジネス調") (js "business");
       styleCandidate baseLevel rf.1 (js "親しみやすい丁寧調") (js "friendly") ],
     rf.2)
  /\ length (generateVariations originalText context baseLevel g).1 = 6.
Proof.
  cbv zeta.
  assert (forall A B (p : A * B), p = (p.1, p.2)) as Hp by (intros ? ? []; reflexivity).
  unfold generateVariations, generateStyleVariations, levelLoop,
    mbind, gen_bind, mret, gen_ret.
  destruct (generatePoliteVersion originalText context 2 g) as [t2 g2].
  cbn [fst snd].
  destruct (generatePoliteVersion originalText context 3 g2) as [t3 g3].
  cbn [fst snd].
  destruct (generatePoliteVersion originalText context 4 g3) as [t4 g4].
  cbn [fst snd].
  destruct (generatePoliteVersion originalText context 5 g4) as [t5 g5].
  cbn [fst snd].
  destruct (generatePoliteVersion originalText _ baseLevel g5) as [tb gb].
  cbn [fst snd].
  destruct (generatePoliteVersion originalText _ baseLevel gb) as [tf gf].
  split; reflexivity.
Qed.

End GeneratorFacts.

Module ConverterFacts.
Import ContextAnalyzer WordConverter ConverterSpec.

Lemma get_cons k' v' rest k :
  get ((k', v') :: rest) k = if eqb k' k then Some v' else get rest k.
Proof. unfold get. simpl. destruct (eqb k' k); reflexivity. Qed.

Lemma get_assign obj k v k' :
  get (assign obj k v) k' = if eqb k k' then Some v else get obj k'.
Proof.
  induction obj as [|[k0 v0] obj IH]; simpl.
  - rewrite get_cons. reflexivity.
  - destruct (eqb k0 k) eqn:E.
    + apply eqb_eq in E as ->. rewrite !get_cons. destruct (eqb k k'); reflexivity.
    + rewrite !get_cons, IH. destruct (eqb k0 k') eqn:E'; [|reflexivity].
      apply eqb_eq in E' as ->. apply eqb_neq in E.
      destruct (eqb k k') eqn:E''; [|reflexivity].
      apply eqb_eq in E''. congruence.
Qed.

Lemma keys_assign obj k v :
  In k (map fst obj) -> map fst (assign obj k v) = map fst obj.
Proof.
  induction obj as [|[k0 v0] obj IH]; simpl; [intros []|].
  intros H. destruct (eqb k0 k) eqn:E; [reflexivity|]. simpl. f_equal.
  apply IH. destruct H as [H | H]; [|exact H].
  apply eqb_neq in E. congruence.
Qed.

(** The spread overlays: a key of [b] takes the value of [b], any other
    key keeps the value of [a]. *)
Lemma get_spread a b k :
  NoDup (map fst b) -> get (spread a b) k = overlay (get a) (get b) k.
Proof.
  unfold spread, overlay. revert a.
  induction b as [|[kb vb] b IH]; intros a Hnd; simpl; [reflexivity|].
  inversion Hnd as [|? ? Hnotin Hnd']; subst.
  rewrite IH by exact Hnd'. rewrite get_cons, get_assign.
  destruct (get b k) as [v|] eqn:Eb; [|destruct (eqb kb k); reflexivity].
  destruct (eqb kb k) eqn:E; [|reflexivity].
  apply eqb_eq in E as ->. exfalso. apply Hnotin.
  unfold get in Eb. destruct (find _ b) as [[k1 v1]|] eqn:Ef; [|discriminate].
  apply find_some in Ef as [Hin Heq]. simpl in Heq. apply eqb_eq in Heq as <-.
  apply list_elem_of_In. apply (in_map fst) in Hin. exact Hin.
Qed.

Lemma keys_spread a b :
  (forall k, In k (map fst b) -> In k (map fst a)) ->
  map fst (spread a b) = map fst a.
Proof.
  unfold spread. revert a. induction b as [|[kb vb] b IH]; intros a H; simpl;
    [reflexivity|].
  rewrite IH.
  - apply keys_assign. apply H. left; reflexivity.
  - intros k Hk. rewrite keys_assign by (apply H; left; reflexivity).
    apply H. right; exact Hk.
Qed.

Lemma keys_spread_base a b :
  map fst a = map fst phrases ->
  (forall k, In k (map fst b) -> In k (map fst phrases)) ->
  map fst (spread a b) = map fst phrases.
Proof.
  intros Ha Hb. rewrite keys_spread; [exact Ha|].
  intros k Hk. rewrite Ha. apply Hb, Hk.
Qed.

Lemma subseteq_In (l1 l2 : list (list N)) :
  l1 ⊆ l2 -> forall k, In k l1 -> In k l2.
Proof.
  intros H k Hk. apply list_elem_of_In, H, list_elem_of_In, Hk.
Qed.

Lemma contextual_keys :
  (NoDup (map fst contextualBusiness) /\ NoDup (map fst contextualUrgent)
   /\ NoDup (map fst contextualSuperior))
  /\ (forall k, In k (map fst contextualBusiness) -> In k (map fst phrases))
  /\ (forall k, In k (map fst contextualUrgent) -> In k (map fst phrases))
  /\ (forall k, In k (map fst contextualSuperior) -> In k (map fst phrases)).
Proof.
  split.
  - repeat split; apply (bool_decide_unpack _); vm_compute; reflexivity.
  - repeat split; apply subseteq_In; apply (bool_decide_unpack _);
      vm_compute; reflexivity.
Qed.

Lemma eqb_decide (a b : list N) : eqb a b = bool_decide (a = b).
Proof.
  destruct (eqb a b) eqn:E; symmetry.
  - apply bool_decide_eq_true, eqb_eq, E.
  - apply bool_decide_eq_false, eqb_neq, E.
Qed.

Lemma phraseSetFor_spec context :
  (forall k, get (phraseSetFor context) k = statedPhraseMap context k)
  /\ map fst (phraseSetFor context) = map fst phrases.
Proof.
  destruct contextual_keys as ((Nb & Nu & Ns) & Hkb & Hku & Hks).
  unfold phraseSetFor, statedPhraseMap.
  destruct context as [c|]; [|split; reflexivity].
  assert (Hrel : forall (X Y : list (list N * list N)),
             match relationship c with
             | Some r => if eqb r (js "superior") then X else Y
             | None => Y
             end = if decide (relationship c = Some (js "superior")) then X else Y).
  { intros X Y. destruct (relationship c) as [r|];
      [|destruct (decide _); [discriminate | reflexivity]].
    destruct (eqb r (js "superior")) eqn:E;
      destruct (decide (Some r = Some (js "superior"))) as [D | D];
      try reflexivity; exfalso.
    - apply eqb_eq in E. subst. congruence.
    - apply eqb_neq in E. congruence. }
  cbv zeta. rewrite Hrel, !eqb_decide.
  repeat case_bool_decide; repeat case_decide; try contradiction;
    (split;
     [ intros k;
       repeat (rewrite get_spread by assumption; unfold overlay); reflexivity
     | repeat match goal with
              | |- map fst (spread _ contextualBusiness) = _ =>
                apply keys_spread_base; [| exact Hkb]
              | |- map fst (spread _ contextualUrgent) = _ =>
                apply keys_spread_base; [| exact Hku]
              | |- map fst (spread _ contextualSuperior) = _ =>
                apply keys_spread_base; [| exact Hks]
              end;
       reflexivity ]).
Qed.

(** C6. For every context, the phrase set of the phrase pass maps every
    key as the base map overlaid with the business, then the urgent, then
    the superior map does, where the later overlay replaces the entry of
    the earlier one; its keys are those of the base map, in their order. *)
Theorem phrase_set_overlay context k :
  get (phraseSetFor context) k = statedPhraseMap context k
  /\ map fst (phraseSetFor context) = map fst phrases.
Proof.
  destruct (phraseSetFor_spec context) as [H1 H2]. split; [apply H1 | exact H2].
Qed.

End ConverterFacts.

Module LearnerFacts.
Import Exn FeedbackLearning LearnerSpec.

Lemma learnFrom_lessons p m :
  learnFrom p m = fold_left (teach (context p)) (lessons p) m.
Proof.
  unfold learnFrom, lessons, extractNegativeFeedbackPatterns,
    extractPositiveFeedbackPatterns, extractCorrectionPatterns.
  rewrite fold_left_app.
  assert (forall K c s (fs : list Found) m0,
            fold_left (teach (context p))
              (map (fun f => {| kind := K; cap := c; step := s; found := f |}) fs) m0
            = fold_left (learn K c s (context p)) fs m0) as Hmap.
  { intros K c s fs. induction fs as [|f fs IH]; intros m0; simpl;
      [reflexivity | apply IH]. }
  destruct (userRating p <=? 2)%Z; [|destruct (4 <=? userRating p)%Z];
    destruct (truthy (userCorrection p)); rewrite ?Hmap; reflexivity.
Qed.

Lemma teach_lookup ctx m l k :
  teach ctx m l !! k
  = if decide (keyOf l = k)
    then Some {| type := default (kind l) (type <$> m !! k);
                 pattern := default (foundPattern (found l)) (pattern <$> m !! k);
                 to := default (foundTo (found l)) (to <$> m !! k);
                 patternType :=
                   default (foundType (found l)) (patternType <$> m !! k);
                 occurrences := (occurrencesAt m k + 1)%Z;
                 contexts := default [] (contexts <$> m !! k) ++ [ctx];
                 confidence :=
                   Qmin (cap l) (inject_Z (occurrencesAt m k + 1) * step l) |}
    else m !! k.
Proof.
  unfold teach, learn, occurrencesAt. fold (keyOf l).
  destruct (decide (keyOf l = k)) as [<- | Hne].
  - rewrite lookup_insert_eq. destruct (m !! keyOf l); reflexivity.
  - rewrite lookup_insert_ne by exact Hne. reflexivity.
Qed.

Lemma lastOf_None_hits k L : lastOf k L = None -> hits k L = 0%Z.
Proof.
  induction L as [|l L IH]; simpl; [reflexivity|].
  destruct (lastOf k L); [discriminate|].
  destruct (decide (keyOf l = k)); [discriminate|]. intros _. rewrite IH; reflexivity.
Qed.

Lemma hits_nonneg k L : (0 <= hits k L)%Z.
Proof. induction L as [|l L IH]; simpl; [lia|]. destruct (decide _); lia. Qed.

Lemma lastOf_Some_hits k L l : lastOf k L = Some l -> (1 <= hits k L)%Z.
Proof.
  revert l. induction L as [|l0 L IH]; intros l; simpl; [discriminate|].
  pose proof (hits_nonneg k L).
  destruct (lastOf k L) as [x|].
  - intros _. specialize (IH x eq_refl). destruct (decide _); lia.
  - destruct (decide _); [lia | discriminate].
Qed.

Lemma lastOf_In k L l : lastOf k L = Some l -> In l L /\ keyOf l = k.
Proof.
  revert l. induction L as [|l0 L IH]; intros l; simpl; [discriminate|].
  destruct (lastOf k L) as [x|].
  - intros [= <-]. destruct (IH x eq_refl). auto.
  - destruct (decide _) as [E|]; [|discriminate]. intros [= <-]. auto.
Qed.

(** What a list of lessons leaves under a key. *)
Lemma lessons_lookup ctx L : forall m k,
  match lastOf k L with
  | None => fold_left (teach ctx) L m !! k = m !! k
  | Some l =>
    exists lp, fold_left (teach ctx) L m !! k = Some lp
      /\ occurrences lp = (occurrencesAt m k + hits k L)%Z
      /\ confidence lp = Qmin (cap l) (inject_Z (occurrences lp) * step l)
  end.
Proof.
  induction L as [|l0 L IH]; intros m k; simpl; [reflexivity|].
  specialize (IH (teach ctx m l0) k).
  assert (occurrencesAt (teach ctx m l0) k
          = (occurrencesAt m k + if decide (keyOf l0 = k) then 1 else 0)%Z) as Hocc.
  { unfold occurrencesAt at 1. rewrite teach_lookup.
    destruct (decide (keyOf l0 = k)); simpl; [reflexivity|].
    unfold occurrencesAt. lia. }
  destruct (lastOf k L) as [x|] eqn:El.
  - destruct IH as (lp & E & Ho & Hc). exists lp. repeat split; [exact E | | exact Hc].
    rewrite Ho, Hocc. lia.
  - rewrite IH. rewrite teach_lookup.
    destruct (decide (keyOf l0 = k)) as [Ek|]; [|reflexivity].
    eexists. split; [reflexivity|]. simpl.
    rewrite (lastOf_None_hits _ _ El). split; [lia | reflexivity].
Qed.

Lemma lessons_type ctx K k L : forall m,
  (forall l, In l L -> keyOf l = k -> kind l = K) ->
  (forall lp0, m !! k = Some lp0 -> type lp0 = K) ->
  forall lp, fold_left (teach ctx) L m !! k = Some lp -> type lp = K.
Proof.
  induction L as [|l0 L IH]; intros m HL Hm lp; simpl; [apply Hm|].
  apply IH.
  - intros l Hl. apply HL. right; exact Hl.
  - intros lp0. rewrite teach_lookup.
    destruct (decide (keyOf l0 = k)) as [Ek|]; [|apply Hm].
    intros [= <-]. simpl. destruct (m !! k) as [lp1|] eqn:E; simpl.
    + apply Hm. reflexivity.
    + apply HL; [left; reflexivity | exact Ek].
Qed.

Lemma lessons_params p l :
  In l (lessons p) ->
  (0 < step l)%Q /\ ((cap l == 0.95)%Q \/ (cap l == 0.9)%Q).
Proof.
  unfold lessons. intros H. apply in_app_or in H as [H | H].
  - destruct (userRating p <=? 2)%Z; [|destruct (4 <=? userRating p)%Z];
      [| |destruct H]; apply in_map_iff in H as (f & <- & _); simpl;
      (split; [reflexivity | left; reflexivity]).
  - destruct (truthy (userCorrection p)); [|destruct H].
    apply in_map_iff in H as (f & <- & _). simpl.
    split; [reflexivity | right; reflexivity].
Qed.

Lemma Qmin_grows (c st : Q) (a b : Z) :
  (0 < st)%Q -> (a < b)%Z ->
  let x := Qmin c (inject_Z a * st) in
  let y := Qmin c (inject_Z b * st) in
  (x <= y)%Q /\ ((x < y)%Q \/ ((x == c)%Q /\ (y == x)%Q)).
Proof.
  intros Hst Hab. cbv zeta.
  assert (inject_Z a * st < inject_Z b * st)%Q as Hlt.
  { apply Qmult_lt_compat_r; [exact Hst|]. rewrite <- Zlt_Qlt. exact Hab. }
  set (u := (inject_Z a * st)%Q) in *. set (v := (inject_Z b * st)%Q) in *.
  destruct (Q.min_spec c u) as [[H1 E1] | [H1 E1]];
  destruct (Q.min_spec c v) as [[H2 E2] | [H2 E2]];
    (split; [lra|]); destruct (Qlt_le_dec u c);
    first [left; lra | right; split; lra].
Qed.

Lemma collectFeedback_patterns gen now p s :
  learningPatterns (collectFeedback gen now p s).2
  = learnFrom p (learningPatterns s).
Proof.
  unfold collectFeedback, processFeedback. cbn [snd feedbackData learningPatterns
    userPreferences].
  rewrite lookup_insert_eq. cbn [payload fTimestamp].
  destruct (updateUserPreferences _ _ _) as [o prefs]. reflexivity.
Qed.

(** *** The keys of the negative patterns *)

Lemma identifyProblematicPatterns_types original converted :
  NoDup (map foundType (identifyProblematicPatterns original converted))
  /\ forall f, In f (identifyProblematicPatterns original converted) ->
               In (foundType f) problemTypes.
Proof.
  unfold identifyProblematicPatterns. cbv zeta.
  destruct (multipleApologies converted); destruct (firstRepetition converted);
    destruct (kanaThenRequest converted);
    destruct (above4 (divide (length converted) (length original)));
    cbn [map app foundType In];
    (split;
     [ apply (bool_decide_unpack _); vm_compute; reflexivity
     | intros f Hf;
       repeat (destruct Hf as [<- | Hf]; [vm_compute; tauto|]); destruct Hf ]).
Qed.

Lemma negativeKey_type f g :
  In (foundType f) problemTypes -> In (foundType g) problemTypes ->
  negativeKey f = negativeKey g -> foundType f = foundType g.
Proof.
  unfold negativeKey. intros Hf Hg.
  cbn [problemTypes map In] in Hf, Hg.
  destruct Hf as [<- | [<- | [<- | [<- | []]]]];
    destruct Hg as [<- | [<- | [<- | [<- | []]]]];
    intros H; vm_compute in H; first [discriminate H | reflexivity].
Qed.

Lemma other_kind_key l f :
  kind l = js "positive" \/ kind l = js "correction" ->
  keyOf l <> negativeKey f.
Proof.
  unfold keyOf, negativeKey. intros [-> | ->] H; vm_compute in H; discriminate H.
Qed.

Lemma hits_zero k L : (forall l, In l L -> keyOf l <> k) -> hits k L = 0%Z.
Proof.
  induction L as [|l L IH]; simpl; intros H; [reflexivity|].
  destruct (decide (keyOf l = k)) as [E|_].
  - exfalso. apply (H l); [left; reflexivity | exact E].
  - rewrite IH; [reflexivity|]. intros l' Hl'. apply H. right; exact Hl'.
Qed.

Lemma hits_app k L1 L2 : hits k (L1 ++ L2) = (hits k L1 + hits k L2)%Z.
Proof. induction L1 as [|l L1 IH]; simpl; [reflexivity | rewrite IH; lia]. Qed.

Lemma hits_negative fs f :
  In f fs -> NoDup (map foundType fs) ->
  (forall g, In g fs -> negativeKey g = negativeKey f ->
             foundType g = foundType f) ->
  hits (negativeKey f) (map negativeLesson fs) = 1%Z.
Proof.
  induction fs as [|g fs IH]; [intros []|].
  intros Hin Hnd Hinj. inversion Hnd as [|? ? Hnotin Hnd']; subst.
  rewrite list_elem_of_In in Hnotin. simpl.
  change (keyOf (negativeLesson g)) with (negativeKey g).
  destruct (decide (negativeKey g = negativeKey f)) as [E | E].
  - rewrite hits_zero; [reflexivity|].
    intros l Hl. apply in_map_iff in Hl as (h & <- & Hh).
    change (keyOf (negativeLesson h)) with (negativeKey h). intros Eh.
    apply Hnotin. rewrite (Hinj g (or_introl eq_refl) E).
    rewrite <- (Hinj h (or_intror Hh) Eh). apply in_map. exact Hh.
  - destruct Hin as [-> | Hin]; [congruence|].
    rewrite IH; [reflexivity | exact Hin | exact Hnd' |].
    intros h Hh. apply Hinj. right; exact Hh.
Qed.

Lemma lessons_rated_low p :
  (userRating p <= 2)%Z ->
  exists corrections,
    lessons p
    = map negativeLesson
        (identifyProblematicPatterns (originalText p) (convertedText p))
      ++ corrections
    /\ forall l, In l corrections -> kind l = js "correction".
Proof.
  intros H. unfold lessons.
  replace (userRating p <=? 2)%Z with true by (symmetry; apply Z.leb_le; exact H).
  eexists. split; [reflexivity|].
  destruct (truthy (userCorrection p)); [|intros l []].
  intros l Hl. apply in_map_iff in Hl as (f & <- & _). reflexivity.
Qed.

(** A negative pattern found in a payload rated 1 or 2 is taught once,
    as a negative lesson. *)
Lemma negative_lesson_once p f :
  (userRating p <= 2)%Z ->
  In f (identifyProblematicPatterns (originalText p) (convertedText p)) ->
  hits (negativeKey f) (lessons p) = 1%Z
  /\ (exists l, lastOf (negativeKey f) (lessons p) = Some l
                /\ cap l = 0.95%Q /\ step l = 0.1%Q)
  /\ forall l, In l (lessons p) -> keyOf l = negativeKey f ->
               kind l = js "negative".
Proof.
  intros Hr Hf. destruct (lessons_rated_low p Hr) as (corr & -> & Hcorr).
  destruct (identifyProblematicPatterns_types (originalText p) (convertedText p))
    as [Hnd Hty].
  assert (hits (negativeKey f) corr = 0%Z) as Hc0.
  { apply hits_zero. intros l Hl. apply other_kind_key. right. apply Hcorr, Hl. }
  assert (Hkinds : forall l,
             In l (map negativeLesson
                     (identifyProblematicPatterns (originalText p) (convertedText p))
                   ++ corr) ->
             keyOf l = negativeKey f ->
             kind l = js "negative" /\ cap l = 0.95%Q /\ step l = 0.1%Q).
  { intros l Hl Hk. apply in_app_or in Hl as [Hl | Hl].
    - apply in_map_iff in Hl as (g & <- & _). repeat split.
    - exfalso. revert Hk. apply other_kind_key. right. apply Hcorr, Hl. }
  assert (Hhits : hits (negativeKey f)
            (map negativeLesson
               (identifyProblematicPatterns (originalText p) (convertedText p))
             ++ corr) = 1%Z).
  { rewrite hits_app, Hc0, hits_negative; [reflexivity | exact Hf | exact Hnd |].
    intros g Hg. apply negativeKey_type; apply Hty; assumption. }
  split; [exact Hhits|]. split.
  - destruct (lastOf (negativeKey f) _) as [l|] eqn:El.
    + exists l. split; [reflexivity|].
      apply lastOf_In in El as [Hin Hk]. apply (Hkinds l Hin Hk).
    + apply lastOf_None_hits in El. rewrite Hhits in El. discriminate.
  - intros l Hl Hk. apply (Hkinds l Hl Hk).
Qed.

(** *** Feedback recorded twice *)

Lemma learned_twice ctx L m k l :
  lastOf k L = Some l ->
  exists lp1 lp2,
    fold_left (teach ctx) L m !! k = Some lp1
    /\ fold_left (teach ctx) L (fold_left (teach ctx) L m) !! k = Some lp2
    /\ occurrences lp1 = (occurrencesAt m k + hits k L)%Z
    /\ occurrences lp2 = (occurrencesAt m k + 2 * hits k L)%Z
    /\ confidence lp1 = Qmin (cap l) (inject_Z (occurrences lp1) * step l)
    /\ confidence lp2 = Qmin (cap l) (inject_Z (occurrences lp2) * step l).
Proof.
  intros El.
  pose proof (lessons_lookup ctx L m k) as H1.
  pose proof (lessons_lookup ctx L (fold_left (teach ctx) L m) k) as H2.
  rewrite El in H1, H2.
  destruct H1 as (lp1 & E1 & O1 & C1). destruct H2 as (lp2 & E2 & O2 & C2).
  exists lp1, lp2. repeat split; try assumption.
  rewrite O2. unfold occurrencesAt at 1. rewrite E1. simpl. rewrite O1. lia.
Qed.



End LearnerFacts.

Module RewritingFacts.
Import Rewriting.

Lemma agreeHead_common a b u v : a ++ u = b ++ v -> agreeHead a b = true.
Proof.
  revert b. induction a as [|x a IH]; intros [|y b] H; simpl; try reflexivity.
  simpl in H. injection H as -> H. rewrite N.eqb_refl. simpl. apply (IH b H).
Qed.

Lemma overlaps_left k p n :
  overlaps k p = false -> 1 <= n < length k -> agreeHead (drop n k) p = false.
Proof.
  unfold overlaps. intros H Hn. apply orb_false_elim in H as [H _].
  destruct (agreeHead (drop n k) p) eqn:E; [|reflexivity].
  assert (existsb (fun n => agreeHead (drop n k) p) (seq 1 (length k - 1)) = true)
    as Hex; [|congruence].
  apply existsb_exists. exists n. split; [|exact E]. apply in_seq. lia.
Qed.

Lemma overlaps_right k p d :
  overlaps k p = false -> d < length p -> agreeHead k (drop d p) = false.
Proof.
  unfold overlaps. intros H Hd. apply orb_false_elim in H as [_ H].
  destruct (agreeHead k (drop d p)) eqn:E; [|reflexivity].
  assert (existsb (fun d => agreeHead k (drop d p)) (seq 0 (length p)) = true)
    as Hex; [|congruence].
  apply existsb_exists. exists d. split; [|exact E]. apply in_seq. lia.
Qed.

Lemma Rewrites_refl rules t : Rewrites rules t t.
Proof. induction t; constructor; assumption. Qed.

Lemma Rewrites_app rules a a' b b' :
  Rewrites rules a a' -> Rewrites rules b b' -> Rewrites rules (a ++ b) (a' ++ b').
Proof.
  intros Ha Hb. induction Ha as [|c t t' _ IH|lit lit' t t' Hin _ IH]; simpl.
  - exact Hb.
  - constructor. exact IH.
  - rewrite <- !app_assoc. constructor; assumption.
Qed.

Lemma Rewrites_single rules lit lit' :
  In (lit, lit') rules -> Rewrites rules lit lit'.
Proof.
  intros H.
  pose proof (Rewrites_subst rules lit lit' [] [] H (Rewrites_nil _)) as Hs.
  rewrite (app_nil_r lit), (app_nil_r lit') in Hs. exact Hs.
Qed.

Lemma Rewrites_weaken rules rules' t t' :
  (forall r, In r rules -> In r rules') ->
  Rewrites rules t t' -> Rewrites rules' t t'.
Proof.
  intros Hsub H. induction H; constructor; auto.
Qed.

(** Inside an occurrence of [P] nothing is rewritten. *)
Lemma Rewrites_inside rules P :
  (forall r, In r rules -> overlaps (fst r) P = false) ->
  forall s pre y t',
    P = pre ++ s -> Rewrites rules (s ++ y) t' ->
    exists y', t' = s ++ y' /\ Rewrites rules y y'.
Proof.
  intros Hno. induction s as [|c s IH]; intros pre y t' HP H.
  - exists t'. split; [reflexivity | exact H].
  - simpl in H. inversion H as [|c0 t0 t0' H0|lit lit' t0 t0' Hin H0 Heq]; subst.
    + destruct (IH (pre ++ [c]) y t0') as (y' & -> & Hy);
        [rewrite <- app_assoc; reflexivity | exact H0 |].
      exists y'. split; [reflexivity | exact Hy].
    + exfalso.
      assert (agreeHead lit (c :: s) = true) as Ha.
      { apply (agreeHead_common lit (c :: s) t0 y). exact Heq. }
      pose proof (overlaps_right lit (pre ++ c :: s) (length pre)
                    (Hno _ Hin)) as Hr.
      rewrite drop_app_length in Hr. rewrite Hr in Ha; [discriminate|].
      rewrite length_app. simpl. lia.
Qed.

Lemma app_eq_app_split (x1 x2 y1 y2 : list N) :
  x1 ++ x2 = y1 ++ y2 ->
  (exists l, y1 = x1 ++ l /\ x2 = l ++ y2)
  \/ (exists c l, x1 = y1 ++ c :: l /\ y2 = (c :: l) ++ x2).
Proof.
  revert y1. induction x1 as [|a x1 IH]; intros y1 H; simpl in H.
  - left. exists y1. split; [reflexivity | exact H].
  - destruct y1 as [|b y1]; simpl in H.
    + right. exists a, x1. split; [reflexivity | symmetry; exact H].
    + injection H as -> H. destruct (IH y1 H) as [(l & -> & ->) | (c & l & -> & ->)].
      * left. exists l. split; reflexivity.
      * right. exists c, l. split; reflexivity.
Qed.

(** Rules whose left sides cannot overlap [P] keep every occurrence of [P]. *)
Lemma Rewrites_keeps rules P t t' :
  (forall r, In r rules -> overlaps (fst r) P = false) ->
  Rewrites rules t t' ->
  includes t P = true -> includes t' P = true.
Proof.
  intros Hno H Hin. apply includes_app in Hin as (x & y & E).
  apply includes_app.
  revert x E. induction H as [|c t t' H IH|lit lit' t t' Hr H IH]; intros x E.
  - destruct x; [|discriminate]. destruct P; [|discriminate].
    exists [], []. reflexivity.
  - destruct x as [|c0 x]; simpl in E.
    + destruct (Rewrites_inside rules P Hno P [] y (c :: t')) as (y' & Ey & _);
        [reflexivity | rewrite <- E; constructor; exact H |].
      exists [], y'. exact Ey.
    + injection E as <- E. destruct (IH x E) as (x' & y' & ->).
      exists (c :: x'), y'. reflexivity.
  - apply app_eq_app_split in E as [(l & -> & E) | (c & l & -> & E)].
    + destruct (IH l E) as (x' & y' & ->).
      exists (lit' ++ x'), y'. rewrite <- app_assoc. reflexivity.
    + destruct P as [|p0 P].
      { exists [], (lit' ++ t'). reflexivity. }
      exfalso. specialize (Hno _ Hr). simpl in Hno.
      assert (agreeHead (c :: l) (p0 :: P) = true) as Ha.
      { apply (agreeHead_common (c :: l) (p0 :: P) t y). symmetry. exact E. }
      destruct x as [|x0 x].
      * pose proof (overlaps_right (c :: l) (p0 :: P) 0 Hno) as Hr0.
        simpl in Hr0. simpl in Ha. rewrite Hr0 in Ha; [discriminate | lia].
      * pose proof (overlaps_left ((x0 :: x) ++ c :: l) (p0 :: P)
                      (length (x0 :: x)) Hno) as Hl.
        rewrite drop_app_length in Hl. rewrite Hl in Ha; [discriminate|].
        rewrite length_app. simpl. lia.
Qed.

Lemma startsWith_nil_l t : startsWith [] t = true.
Proof. destruct t; reflexivity. Qed.

Lemma includes_cons c t p : includes t p = true -> includes (c :: t) p = true.
Proof. intros H. simpl. rewrite H. apply orb_true_r. Qed.

Lemma includes_app_r a t p : includes t p = true -> includes (a ++ t) p = true.
Proof. induction a; simpl; intros H; [exact H | rewrite IHa by exact H; apply orb_true_r]. Qed.

Lemma includes_app_l t b p : includes t p = true -> includes (t ++ b) p = true.
Proof.
  intros H. apply includes_app in H as (x & y & ->). apply includes_app.
  exists x, (y ++ b). rewrite <- !app_assoc. reflexivity.
Qed.

Lemma startsWith_includes t p : startsWith p t = true -> includes t p = true.
Proof. intros H. destruct t; simpl; rewrite H; reflexivity. Qed.

Lemma drop_S_tail (K : list N) n c s : drop n K = c :: s -> drop (S n) K = s.
Proof.
  revert n. induction K as [|k K IH]; intros [|n] H; simpl in *; try discriminate.
  - injection H as _ <-. destruct K; reflexivity.
  - apply IH. exact H.
Qed.

(** A proper suffix of [K] at the head of the rewritten text was at the
    head of the text already. *)
Lemma Rewrites_tail rules K u u' :
  (forall r, In r rules -> overlaps K (snd r) = false) ->
  Rewrites rules u u' ->
  forall n, 1 <= n ->
    startsWith (drop n K) u' = true -> startsWith (drop n K) u = true.
Proof.
  intros Hno H. induction H as [|c t t' H IH|lit lit' t t' Hr H IH]; intros n Hn Hs.
  - destruct (drop n K); [reflexivity | discriminate].
  - destruct (drop n K) as [|c1 s1] eqn:Ed; [reflexivity|].
    simpl in Hs. apply andb_true_iff in Hs as [Hc Hs1]. simpl. rewrite Hc. simpl.
    rewrite <- (drop_S_tail K n c1 s1 Ed). apply IH; [lia|].
    rewrite (drop_S_tail K n c1 s1 Ed). exact Hs1.
  - destruct (drop n K) as [|c1 s1] eqn:Ed; [apply startsWith_nil_l|].
    exfalso. apply startsWith_app in Hs as (r & Hs).
    assert (agreeHead (drop n K) lit' = true) as Ha.
    { rewrite Ed. apply (agreeHead_common (c1 :: s1) lit' r t'). symmetry. exact Hs. }
    rewrite (overlaps_left K lit' n (Hno _ Hr)) in Ha; [discriminate|].
    split; [exact Hn|].
    destruct (decide (n < length K)) as [Hlt|Hge]; [exact Hlt|].
    rewrite drop_ge in Ed by lia. discriminate.
Qed.

(** Rules whose right sides cannot overlap [K] produce no occurrence of [K]. *)
Lemma Rewrites_excludes rules K t t' :
  (forall r, In r rules -> overlaps K (snd r) = false) ->
  Rewrites rules t t' ->
  includes t K = false -> includes t' K = false.
Proof.
  intros Hno H Hnot. destruct (includes t' K) eqn:Hin; [|reflexivity].
  exfalso. assert (includes t K = true) as Hyes; [|congruence]. clear Hnot.
  apply includes_app in Hin as (x & y & E). revert x E.
  induction H as [|c t t' H IH|lit lit' t t' Hr H IH]; intros x E.
  - destruct x; [|discriminate]. destruct K; [reflexivity | discriminate].
  - destruct x as [|c0 x]; simpl in E.
    + destruct K as [|k0 K1]; [apply startsWith_includes, startsWith_nil_l|].
      simpl in E. injection E as <- E.
      apply startsWith_includes. simpl. rewrite N.eqb_refl. simpl.
      apply (Rewrites_tail rules (c :: K1) t t' Hno H 1); [lia|].
      simpl. rewrite drop_0. apply startsWith_app. exists y. exact E.
    + injection E as <- E. apply includes_cons. apply (IH x E).
  - apply app_eq_app_split in E as [(l & -> & E) | (c & l & -> & E)].
    + apply includes_app_r. apply (IH l E).
    + exfalso.
      assert (agreeHead K (c :: l) = true) as Ha.
      { apply (agreeHead_common K (c :: l) y t'). exact E. }
      pose proof (overlaps_right K (x ++ c :: l) (length x) (Hno _ Hr)) as Hr0.
      rewrite drop_app_length in Hr0. rewrite Hr0 in Ha; [discriminate|].
      rewrite length_app. simpl. lia.
Qed.

(** An ending that cannot overlap [K] does not complete an occurrence. *)
Lemma append_excludes K t ending :
  overlaps K ending = false ->
  includes t K = false -> includes (t ++ ending) K = false.
Proof.
  intros Hno Hnot.
  pose proof (Rewrites_single [([], ending)] [] ending (or_introl eq_refl)) as Hr.
  apply (Rewrites_excludes [([], ending)] K (t ++ []) (t ++ ending)).
  - intros r [<- | []]. exact Hno.
  - apply Rewrites_app; [apply Rewrites_refl | exact Hr].
  - rewrite app_nil_r. exact Hnot.
Qed.

End RewritingFacts.

Module DictionaryFacts.
Import ContextAnalyzer WordConverter Rewriting RewritingFacts DictionarySpec.

(** *** The global replacement *)

Lemma replaceFrom_Rewrites p r :
  p <> [] ->
  forall t skip, skip <= length t ->
    Rewrites [(p, r)] (drop skip t) (replaceFrom p r skip t).
Proof.
  intros Hp. induction t as [|c t IH]; intros skip Hs.
  - destruct skip; simpl in *; [constructor | lia].
  - destruct skip as [|k].
    + cbn [replaceFrom]. rewrite drop_0.
      destruct (startsWith p (c :: t)) eqn:E.
      * apply startsWith_app in E as (rest & E).
        destruct p as [|c0 p']; [congruence|]. simpl in E. injection E as <- ->.
        change (c :: p' ++ rest) with ((c :: p') ++ rest).
        constructor; [left; reflexivity|].
        replace (length (c :: p') - 1) with (length p') by (simpl; lia).
        specialize (IH (length p')). rewrite drop_app_length in IH.
        apply IH. rewrite length_app. lia.
      * constructor. specialize (IH 0). rewrite drop_0 in IH. apply IH. lia.
    + cbn [replaceFrom]. simpl drop. apply IH. simpl in Hs. lia.
Qed.

Lemma replaceAll_Rewrites p r t :
  p <> [] -> Rewrites [(p, r)] t (replaceAll p r t).
Proof.
  intros Hp. pose proof (replaceFrom_Rewrites p r Hp t 0) as H.
  rewrite drop_0 in H. apply H. lia.
Qed.

Lemma replaceAll_includes p r t :
  p <> [] -> includes t p = true -> includes (replaceAll p r t) r = true.
Proof.
  intros Hp. unfold replaceAll. induction t as [|c t IH]; intros H.
  - simpl in H. rewrite orb_false_r in H. destruct p; [congruence | discriminate].
  - cbn [replaceFrom]. destruct (startsWith p (c :: t)) eqn:E.
    + apply startsWith_includes, startsWith_app. eexists. reflexivity.
    + apply includes_cons, IH. simpl in H. 
      change (startsWith p (c :: t) || includes t p = true) in H.
      rewrite E in H. exact H.
Qed.

Lemma prepend_excludes K P t :
  overlaps K P = false ->
  includes t K = false -> includes (P ++ t) K = false.
Proof.
  intros Hno Hnot.
  apply (Rewrites_excludes [([], P)] K ([] ++ t) (P ++ t)).
  - intros r [<- | []]. exact Hno.
  - constructor; [left; reflexivity | apply Rewrites_refl].
  - exact Hnot.
Qed.

Lemma replaceFrom_excludes K P :
  K <> [] -> overlaps K P = false ->
  forall t skip, skip <= length t ->
    includes (replaceFrom K P skip t) K = false.
Proof.
  intros HK Hno. induction t as [|c t IH]; intros skip Hs.
  - simpl. rewrite orb_false_r. destruct K; [congruence | reflexivity].
  - destruct skip as [|k]; cbn [replaceFrom].
    + destruct (startsWith K (c :: t)) eqn:E.
      * apply prepend_excludes; [exact Hno|]. apply IH.
        apply startsWith_app in E as (rest & E).
        destruct K as [|c0 K']; [congruence|]. simpl in E. injection E as _ ->.
        rewrite length_app. simpl. lia.
      * cbn [includes]. rewrite (IH 0) by lia. rewrite orb_false_r.
        destruct (startsWith K (c :: replaceFrom K P 0 t)) eqn:E'; [|reflexivity].
        exfalso. destruct K as [|c0 K']; [congruence|].
        simpl in E, E'. apply andb_true_iff in E' as [Ec E'].
        rewrite Ec in E. simpl in E.
        pose proof (replaceFrom_Rewrites (c0 :: K') P HK t 0 ltac:(lia)) as Hr.
        rewrite drop_0 in Hr.
        pose proof (Rewrites_tail [(c0 :: K', P)] (c0 :: K') t _
                      ltac:(intros r [<- | []]; exact Hno) Hr 1 ltac:(lia)) as Ht.
        simpl in Ht. rewrite drop_0 in Ht. rewrite (Ht E') in E. discriminate.
    + apply IH. simpl in Hs. lia.
Qed.

Lemma countFrom_nonneg p t : forall skip, (0 <= countFrom p skip t)%Z.
Proof.
  induction t as [|c t IH]; intros skip; [simpl; lia|].
  destruct skip; cbn [countFrom]; [|apply IH].
  destruct (startsWith p (c :: t)); [specialize (IH (length p - 1)); lia | apply IH].
Qed.

Lemma countMatches_positive p t :
  p <> [] -> includes t p = true -> (1 <= countMatches p t)%Z.
Proof.
  intros Hp. unfold countMatches. induction t as [|c t IH]; intros H.
  - simpl in H. rewrite orb_false_r in H. destruct p; [congruence | discriminate].
  - cbn [countFrom]. destruct (startsWith p (c :: t)) eqn:E.
    + pose proof (countFrom_nonneg p t (length p - 1)). lia.
    + apply IH. simpl in H.
      change (startsWith p (c :: t) || includes t p = true) in H.
      rewrite E in H. exact H.
Qed.
End DictionaryFacts.

Module PassFacts.
Import ContextAnalyzer WordConverter Rewriting RewritingFacts DictionarySpec
  DictionaryFacts.

(** *** The rewrites of [handleSpecialPatterns] *)

Lemma dotPlusThen_spec lit t n :
  dotPlusThen lit t = Some n ->
  1 <= n /\ n <= length t /\ startsWith lit (drop n t) = true.
Proof.
  revert n. induction t as [|c t IH]; intros n; simpl; [discriminate|].
  destruct (isLineTerminator c); [discriminate|].
  destruct (dotPlusThen lit t) as [m|].
  - intros [= <-]. destruct (IH m eq_refl) as (H1 & H2 & H3).
    repeat split; [lia | lia | exact H3].
  - destruct (startsWith lit t) eqn:E; [|discriminate].
    intros [= <-]. repeat split; [lia | lia | exact E].
Qed.

Lemma startsWith_take n (t : list N) : startsWith (take n t) t = true.
Proof. apply startsWith_app. exists (drop n t). symmetry. apply take_drop. Qed.

Lemma rewriteFrom_Rewrites rules matchAt callback :
  (forall t n, matchAt t = Some n ->
     1 <= n <= length t
     /\ Rewrites rules (take n t) (callback (take n t)).1) ->
  forall t skip, skip <= length t ->
    Rewrites rules (drop skip t) (rewriteFrom matchAt callback skip t).1.
Proof.
  intros Hm. induction t as [|c t IH]; intros skip Hs.
  - destruct skip; simpl in *; [constructor | lia].
  - destruct skip as [|k]; cbn [rewriteFrom].
    + rewrite drop_0. destruct (matchAt (c :: t)) as [n|] eqn:E.
      * destruct (Hm _ _ E) as [Hn Hr].
        destruct (callback (take n (c :: t))) as [r pushed].
        specialize (IH (n - 1)).
        destruct (rewriteFrom matchAt callback (n - 1) t) as [out log].
        cbn [fst] in *. rewrite <- (take_drop n (c :: t)) at 1.
        apply Rewrites_app; [exact Hr|].
        replace (drop n (c :: t)) with (drop (n - 1) t)
          by (destruct n; [lia | simpl; f_equal; lia]).
        apply IH. simpl in Hn. lia.
      * specialize (IH 0). rewrite drop_0 in IH.
        destruct (rewriteFrom matchAt callback 0 t) as [out log].
        cbn [fst] in *. constructor. apply IH. lia.
    + simpl drop. apply IH. simpl in Hs. lia.
Qed.

(** Every entry a rewrite pushes is for a piece of the text. *)
Lemma rewriteFrom_log matchAt callback :
  (forall m, Forall (fun e => original e = m) (callback m).2) ->
  forall t skip,
    Forall (fun e => includes t (original e) = true)
           (rewriteFrom matchAt callback skip t).2.
Proof.
  intros Hc. induction t as [|c t IH]; intros skip; [constructor|].
  assert (forall k, Forall (fun e => includes (c :: t) (original e) = true)
                      (rewriteFrom matchAt callback k t).2) as IH'.
  { intros k. eapply Forall_impl; [apply IH|]. intros e. apply includes_cons. }
  destruct skip as [|k]; cbn [rewriteFrom]; [|apply IH'].
  destruct (matchAt (c :: t)) as [n|].
  - specialize (Hc (take n (c :: t))). specialize (IH' (n - 1)).
    destruct (callback (take n (c :: t))) as [r pushed].
    destruct (rewriteFrom matchAt callback (n - 1) t) as [out log].
    cbn [snd] in *. apply Forall_app. split; [|exact IH'].
    eapply Forall_impl; [exact Hc|]. intros e ->. cbv beta.
    apply startsWith_includes, startsWith_take.
  - specialize (IH' 0). destruct (rewriteFrom matchAt callback 0 t) as [out log].
    exact IH'.
Qed.

Lemma rewriteEnding_spec lit lit' why acc :
  Rewrites [(lit, lit')] acc.1 (rewriteEnding lit lit' why acc).1
  /\ exists pushed,
       (rewriteEnding lit lit' why acc).2 = acc.2 ++ pushed
       /\ Forall (fun e => includes acc.1 (original e) = true) pushed.
Proof.
  unfold rewriteEnding.
  match goal with
  | |- context [rewriteFrom ?m ?c 0 acc.1] =>
    pose proof (rewriteFrom_Rewrites [(lit, lit')] m c) as Hr;
    pose proof (rewriteFrom_log m c) as Hl
  end.
  cbv beta in Hr, Hl.
  match type of Hr with ?A -> _ => assert A as HA end.
  { intros t n E. destruct (dotPlusThen lit t) as [n0|] eqn:Ed; [|discriminate].
    simpl in E. injection E as <-.
    apply dotPlusThen_spec in Ed as (H1 & H2 & H3).
    apply startsWith_app in H3 as (rest & H3).
    assert (t = take n0 t ++ lit ++ rest) as Et.
    { rewrite <- H3. symmetry. apply take_drop. }
    assert (length (take n0 t) = n0) as Hlen by (rewrite length_take; lia).
    pose proof (f_equal length Et) as Hlt. rewrite !length_app, Hlen in Hlt.
    split; [lia|].
    - assert (take (n0 + length lit) t = take n0 t ++ lit) as ->.
      { rewrite Et at 1. rewrite take_app_add' by (symmetry; exact Hlen).
        rewrite take_app_length. reflexivity. }
      cbn [fst]. rewrite length_app, Hlen.
      replace (n0 + length lit - length lit) with n0 by lia.
      rewrite take_app_le by (rewrite Hlen; lia).
      rewrite take_take, Nat.min_id.
      apply Rewrites_app; [apply Rewrites_refl|].
      apply Rewrites_single. left; reflexivity. }
  specialize (Hr HA acc.1 0 ltac:(lia)). rewrite drop_0 in Hr.
  match type of Hl with ?A -> _ => assert A as HB end.
  { intros m. cbn [snd]. constructor; [reflexivity | constructor]. }
  specialize (Hl HB acc.1 0).
  destruct (rewriteFrom _ _ 0 acc.1) as [out log]. cbn [fst snd] in *.
  split; [exact Hr|]. exists log. split; [reflexivity | exact Hl].
Qed.
End PassFacts.

Module ConversionFacts.
Import ContextAnalyzer WordConverter Rewriting RewritingFacts DictionarySpec
  DictionaryFacts PassFacts.

Lemma rewriteWhy_spec acc :
  Rewrites patternRules acc.1 (rewriteWhy acc).1
  /\ exists pushed,
       (rewriteWhy acc).2 = acc.2 ++ pushed
       /\ Forall (fun e => includes acc.1 (original e) = true) pushed.
Proof.
  unfold rewriteWhy. cbv zeta.
  assert (In (js "なんで", js "なぜ") patternRules) as Hin1
    by (unfold patternRules; do 4 right; left; reflexivity).
  assert (In (js "？", js "のでしょうか？") patternRules) as Hin2
    by (unfold patternRules; do 5 right; left; reflexivity).
  revert Hin1 Hin2.
  generalize (js "なんで") (js "？") (js "なぜ") (js "のでしょうか？").
  intros pre post pre' post' Hin1 Hin2.
  match goal with
  | |- context [rewriteFrom ?m ?c 0 acc.1] =>
    pose proof (rewriteFrom_Rewrites patternRules m c) as Hr;
    pose proof (rewriteFrom_log m c) as Hl
  end.
  cbv beta in Hr, Hl.
  match type of Hr with ?A -> _ => assert A as HA end.
  { intros t n E. destruct (startsWith pre t) eqn:Ep; [|discriminate].
    apply startsWith_app in Ep as (u & ->).
    rewrite drop_app_length in E.
    destruct (dotPlusThen post u) as [n0|] eqn:Ed; [|discriminate].
    simpl in E. injection E as <-.
    apply dotPlusThen_spec in Ed as (H1 & H2 & H3).
    apply startsWith_app in H3 as (rest & H3).
    assert (u = take n0 u ++ post ++ rest) as Eu.
    { rewrite <- H3. symmetry. apply take_drop. }
    assert (length (take n0 u) = n0) as Hlen by (rewrite length_take; lia).
    pose proof (f_equal length Eu) as Hlu. rewrite !length_app, Hlen in Hlu.
    split; [rewrite length_app; lia|].
    assert (take (length pre + n0 + length post) (pre ++ u)
            = pre ++ take n0 u ++ post) as ->.
    { rewrite <- Nat.add_assoc. rewrite take_app_add' by reflexivity. f_equal.
      rewrite Eu at 1. rewrite take_app_add' by (symmetry; exact Hlen).
      rewrite take_app_length. reflexivity. }
    cbn [fst]. rewrite !length_app, Hlen, drop_app_length.
    replace (length pre + (n0 + length post) - length pre - length post)
      with n0 by lia.
    rewrite take_app_le by (rewrite Hlen; lia).
    rewrite take_take, Nat.min_id.
    apply Rewrites_app; [apply Rewrites_single; exact Hin1|].
    apply Rewrites_app; [apply Rewrites_refl | apply Rewrites_single; exact Hin2]. }
  specialize (Hr HA acc.1 0 ltac:(lia)). rewrite drop_0 in Hr.
  match type of Hl with ?A -> _ => assert A as HB end.
  { intros m. cbn [snd]. constructor; [reflexivity | constructor]. }
  specialize (Hl HB acc.1 0).
  destruct (rewriteFrom _ _ 0 acc.1) as [out log]. cbn [fst snd] in *.
  split; [exact Hr|]. exists log. split; [reflexivity | exact Hl].
Qed.

Lemma rewriteEnding_rules lit lit' why acc :
  In (lit, lit') patternRules ->
  Rewrites patternRules acc.1 (rewriteEnding lit lit' why acc).1.
Proof.
  intros Hin. destruct (rewriteEnding_spec lit lit' why acc) as [Hr _].
  eapply Rewrites_weaken; [|exact Hr]. intros r [<- | []]. exact Hin.
Qed.

Lemma rewriteCommand_spec acc :
  rewriteCommand acc = acc
  \/ exists e, rewriteCommand acc = (acc.1 ++ requestEnding, acc.2 ++ [e])
               /\ original e = acc.1.
Proof.
  unfold rewriteCommand. destruct acc as [result conversions].
  destruct (negb (eqb result []) && forallb isKana result); [|left; reflexivity].
  destruct (endsWith result (js "して") || endsWith result (js "やって"));
    [left; reflexivity|].
  right. eexists. split; reflexivity.
Qed.

(** *** The entries of the log *)

Lemma entriesFor_app K l1 l2 :
  entriesFor K (l1 ++ l2) = entriesFor K l1 ++ entriesFor K l2.
Proof. unfold entriesFor. apply filter_app. Qed.

Lemma entriesFor_none K pushed :
  Forall (fun e => original e <> K) pushed -> entriesFor K pushed = [].
Proof.
  unfold entriesFor. induction 1 as [|e l He _ IH]; [reflexivity|].
  rewrite filter_cons_False by exact He. exact IH.
Qed.

Lemma includes_refl t : includes t t = true.
Proof. apply startsWith_includes, startsWith_app. exists []. symmetry. apply app_nil_r. Qed.

Lemma pieces_differ K t pushed :
  includes t K = false ->
  Forall (fun e => includes t (original e) = true) pushed ->
  Forall (fun e => original e <> K) pushed.
Proof.
  intros Hnot H. eapply Forall_impl; [exact H|]. cbv beta.
  intros e He E. rewrite E in He. congruence.
Qed.

(** *** The steps of the passes *)

Lemma laterOk_In K P rules r :
  laterOk K P rules = true -> In r rules ->
  overlaps (fst r) P = false /\ overlaps K (snd r) = false /\ fst r <> K.
Proof.
  unfold laterOk. rewrite forallb_forall. intros H Hin. specialize (H r Hin).
  apply andb_true_iff in H as [H H3]. apply andb_true_iff in H as [H1 H2].
  apply negb_true_iff in H1, H2, H3. repeat split; try assumption.
  apply eqb_neq. exact H3.
Qed.

Lemma earlierOk_In K rules r :
  earlierOk K rules = true -> In r rules ->
  overlaps (fst r) K = false /\ fst r <> K.
Proof.
  unfold earlierOk. rewrite forallb_forall. intros H Hin. specialize (H r Hin).
  apply andb_true_iff in H as [H1 H2]. apply negb_true_iff in H1, H2.
  split; [exact H1 | apply eqb_neq; exact H2].
Qed.

Lemma overlaps_nil_l P : P <> [] -> overlaps [] P = true.
Proof. destruct P; [congruence|]. intros _. reflexivity. Qed.

Lemma settled_step K P acc t' log' rules pushed :
  settled K P acc ->
  (forall r, In r rules -> overlaps (fst r) P = false) ->
  (forall r, In r rules -> overlaps K (snd r) = false) ->
  Rewrites rules acc.1 t' ->
  log' = acc.2 ++ pushed ->
  Forall (fun e => original e <> K) pushed ->
  settled K P (t', log').
Proof.
  intros (H1 & H2 & e & n & He) Hp Hk Hr -> Hpushed. unfold settled. cbn [fst snd].
  split; [eapply Rewrites_keeps; eassumption|].
  split; [eapply Rewrites_excludes; eassumption|].
  exists e, n. rewrite entriesFor_app, (entriesFor_none K pushed Hpushed), app_nil_r.
  exact He.
Qed.

Lemma convertWord_cases acc entry :
  (convertWord acc entry = acc /\ includes acc.1 (fst entry) = false)
  \/ exists e,
       convertWord acc entry
       = (replaceAll (fst entry) (snd entry) acc.1, acc.2 ++ [e])
       /\ includes acc.1 (fst entry) = true
       /\ original e = fst entry /\ ctype e = js "word"
       /\ converted e = snd entry
       /\ count e = Some (countMatches (fst entry) acc.1).
Proof.
  destruct acc as [result conversions], entry as [casual polite].
  unfold convertWord. cbn [fst snd].
  destruct (includes result casual); [right | left; split; reflexivity].
  eexists. split; [reflexivity|]. repeat split.
Qed.

Lemma convertPhrase_cases context acc entry :
  (convertPhrase context acc entry = acc /\ includes acc.1 (fst entry) = false)
  \/ exists e,
       convertPhrase context acc entry
       = (replaceAll (fst entry) (snd entry) acc.1, acc.2 ++ [e])
       /\ includes acc.1 (fst entry) = true
       /\ original e = fst entry.
Proof.
  destruct acc as [result conversions], entry as [casual polite].
  unfold convertPhrase. cbn [fst snd].
  destruct (includes result casual); [right | left; split; reflexivity].
  eexists. split; [reflexivity|]. repeat split.
Qed.

Lemma settled_substitution K P acc r e :
  P <> [] ->
  overlaps (fst r) P = false -> overlaps K (snd r) = false -> fst r <> K ->
  original e = fst r ->
  settled K P acc ->
  settled K P (replaceAll (fst r) (snd r) acc.1, acc.2 ++ [e]).
Proof.
  intros HP H1 H2 H3 He Hs.
  assert (fst r <> []) as Hne.
  { intros E. rewrite E in H1. rewrite overlaps_nil_l in H1 by exact HP.
    discriminate. }
  apply (settled_step K P acc _ _ [(fst r, snd r)] [e] Hs).
  - intros r' [<- | []]. exact H1.
  - intros r' [<- | []]. exact H2.
  - apply replaceAll_Rewrites. exact Hne.
  - reflexivity.
  - constructor; [congruence | constructor].
Qed.

Lemma settled_words K P rules :
  P <> [] -> laterOk K P rules = true ->
  forall acc, settled K P acc -> settled K P (fold_left convertWord rules acc).
Proof.
  intros HP. induction rules as [|r rules IH]; intros Hok acc Hs; [exact Hs|].
  simpl. apply IH.
  - unfold laterOk in *. simpl in Hok. apply andb_true_iff in Hok as [_ Hok]. exact Hok.
  - destruct (laterOk_In K P (r :: rules) r Hok (or_introl eq_refl)) as (H1 & H2 & H3).
    destruct (convertWord_cases acc r) as [[-> _] | (e & -> & _ & He & _)];
      [exact Hs|].
    apply settled_substitution; assumption.
Qed.

Lemma settled_phrases K P context rules :
  P <> [] -> laterOk K P rules = true ->
  forall acc, settled K P acc ->
    settled K P (fold_left (convertPhrase context) rules acc).
Proof.
  intros HP. induction rules as [|r rules IH]; intros Hok acc Hs; [exact Hs|].
  simpl. apply IH.
  - unfold laterOk in *. simpl in Hok. apply andb_true_iff in Hok as [_ Hok]. exact Hok.
  - destruct (laterOk_In K P (r :: rules) r Hok (or_introl eq_refl)) as (H1 & H2 & H3).
    destruct (convertPhrase_cases context acc r) as [[-> _] | (e & -> & _ & He)];
      [exact Hs|].
    apply settled_substitution; assumption.
Qed.

Lemma awaiting_words K rules :
  K <> [] -> earlierOk K rules = true ->
  forall acc, awaiting K acc -> awaiting K (fold_left convertWord rules acc).
Proof.
  intros HK. induction rules as [|r rules IH]; intros Hok acc Hs; [exact Hs|].
  simpl. apply IH.
  - unfold earlierOk in *. simpl in Hok. apply andb_true_iff in Hok as [_ Hok]. exact Hok.
  - destruct (earlierOk_In K (r :: rules) r Hok (or_introl eq_refl)) as (H1 & H2).
    destruct (convertWord_cases acc r) as [[-> _] | (e & -> & _ & He & _)];
      [exact Hs|].
    destruct Hs as [Hin Hlog]. unfold awaiting. cbn [fst snd]. split.
    + assert (fst r <> []) as Hne.
      { intros E. rewrite E in H1. rewrite overlaps_nil_l in H1 by exact HK.
        discriminate. }
      apply (Rewrites_keeps [(fst r, snd r)] K acc.1); [| |exact Hin].
      * intros r' [<- | []]. exact H1.
      * apply replaceAll_Rewrites. exact Hne.
    + rewrite entriesFor_app, Hlog. apply entriesFor_none.
      constructor; [congruence | constructor].
Qed.

Lemma awaiting_settled K P acc :
  K <> [] -> overlaps K P = false ->
  awaiting K acc -> settled K P (convertWord acc (K, P)).
Proof.
  intros HK Hno [Hin Hlog].
  destruct (convertWord_cases acc (K, P))
    as [[_ Hn] | (e & -> & _ & He & Hty & Hconv & Hcount)]; cbn [fst snd] in *.
  - congruence.
  - unfold settled. cbn [fst snd]. split; [apply replaceAll_includes; assumption|].
    split; [apply replaceFrom_excludes; [assumption | assumption | lia]|].
    exists e, (countMatches K acc.1). rewrite entriesFor_app, Hlog. simpl.
    unfold entriesFor. rewrite filter_cons_True by exact He. 
    repeat split; try assumption.
    apply countMatches_positive; assumption.
Qed.

Lemma settled_patterns K P text context conversions :
  laterOk K P patternRules = true -> overlaps K requestEnding = false ->
  settled K P (text, conversions) ->
  settled K P (handleSpecialPatterns text context conversions).
Proof.
  intros Hok Hend Hs. unfold handleSpecialPatterns. cbv zeta.
  assert (Hp : forall r, In r patternRules -> overlaps (fst r) P = false)
    by (intros r Hr; apply (laterOk_In K P patternRules r Hok Hr)).
  assert (Hk : forall r, In r patternRules -> overlaps K (snd r) = false)
    by (intros r Hr; apply (laterOk_In K P patternRules r Hok Hr)).
  assert (Hend_step : forall lit lit' why acc,
             In (lit, lit') patternRules -> settled K P acc ->
             settled K P (rewriteEnding lit lit' why acc)).
  { intros lit lit' why acc Hin Ha.
    destruct (rewriteEnding_spec lit lit' why acc) as [_ (pushed & El & Hl)].
    pose proof (rewriteEnding_rules lit lit' why acc Hin) as Hr.
    destruct (rewriteEnding lit lit' why acc) as [t' log']. cbn [fst snd] in *.
    apply (settled_step K P acc t' log' patternRules pushed Ha Hp Hk Hr El).
    apply (pieces_differ K acc.1); [apply Ha | exact Hl]. }
  set (a1 := rewriteEnding (js "だっけ？") _ _ _).
  set (a2 := rewriteEnding (js "じゃん") _ _ _).
  set (a3 := rewriteEnding (js "だよね") _ _ _).
  set (a4 := rewriteEnding (js "って言って") _ _ _).
  assert (settled K P a1) as H1
    by (apply Hend_step; [unfold patternRules; left; reflexivity | exact Hs]).
  assert (settled K P a2) as H2
    by (apply Hend_step; [unfold patternRules; do 1 right; left; reflexivity | exact H1]).
  assert (settled K P a3) as H3
    by (apply Hend_step; [unfold patternRules; do 2 right; left; reflexivity | exact H2]).
  assert (settled K P a4) as H4
    by (apply Hend_step; [unfold patternRules; do 3 right; left; reflexivity | exact H3]).
  clearbody a4. clear a1 a2 a3 H1 H2 H3 Hs.
  assert (settled K P (rewriteWhy a4)) as H5.
  { destruct (rewriteWhy_spec a4) as [Hr (pushed & El & Hl)].
    destruct (rewriteWhy a4) as [t' log']. cbn [fst snd] in *.
    apply (settled_step K P a4 t' log' patternRules pushed H4 Hp Hk Hr El).
    apply (pieces_differ K a4.1); [apply H4 | exact Hl]. }
  set (a5 := rewriteWhy a4) in *. clearbody a5.
  destruct (rewriteCommand_spec a5) as [-> | (e & -> & He)]; [exact H5|].
  destruct H5 as (I1 & I2 & e0 & n & I3). unfold settled. cbn [fst snd].
  split; [apply includes_app_l; exact I1|].
  split; [apply append_excludes; assumption|].
  exists e0, n. rewrite entriesFor_app.
  rewrite (entriesFor_none K [e]), app_nil_r; [exact I3|].
  constructor; [|constructor]. rewrite He. intros E.
  rewrite <- E, includes_refl in I2. discriminate.
Qed.

End ConversionFacts.

Module ConverterClaims.
Import ContextAnalyzer WordConverter Rewriting RewritingFacts DictionarySpec
  DictionaryFacts PassFacts ConversionFacts ConverterFacts.

Lemma phraseSetFor_cases context : In (phraseSetFor context) allPhraseSets.
Proof.
  unfold phraseSetFor, allPhraseSets.
  cbv beta iota zeta delta [flat_map map app].
  destruct context as [c|]; [|left; reflexivity].
  destruct (eqb (situation c) (js "business"));
    destruct (eqb (urgency c) (js "urgent"));
    destruct (relationship c) as [r|];
    try destruct (eqb r (js "superior")).
  - do 7 right; left; reflexivity.
  - do 6 right; left; reflexivity.
  - do 6 right; left; reflexivity.
  - do 5 right; left; reflexivity.
  - do 4 right; left; reflexivity.
  - do 4 right; left; reflexivity.
  - do 3 right; left; reflexivity.
  - do 2 right; left; reflexivity.
  - do 2 right; left; reflexivity.
  - do 1 right; left; reflexivity.
  - left; reflexivity.
  - left; reflexivity.
Qed.

Lemma dependableFrom_In K P rest : forall pre0,
  In (K, P) (dependableFrom pre0 rest) ->
  exists pre post,
    rest = pre ++ (K, P) :: post /\ dependable (pre0 ++ pre) K P post = true.
Proof.
  induction rest as [|[K0 P0] rest IH]; intros pre0 H; [destruct H|].
  simpl in H. apply in_app_or in H as [H | H].
  - destruct (dependable pre0 K0 P0 rest) eqn:E; [|destruct H].
    destruct H as [[= <- <-] | []].
    exists [], rest. rewrite app_nil_r. split; [reflexivity | exact E].
  - destruct (IH _ H) as (pre & post & -> & Hd).
    exists ((K0, P0) :: pre), post. split; [reflexivity|].
    rewrite <- app_assoc in Hd. exact Hd.
Qed.

Lemma words_member K P :
  bool_decide ((K, P) ∈ words) = true -> In (K, P) words.
Proof. intros H. apply list_elem_of_In. apply bool_decide_eq_true in H. exact H. Qed.




(** *** The chained substitution *)

Lemma phrases_untouched context acc :
  forallb (fun k => negb (includes acc.1 k)) (map fst phrases) = true ->
  fold_left (convertPhrase context) (phraseSetFor context) acc = acc.
Proof.
  destruct (phraseSetFor_spec context) as [_ <-].
  induction (phraseSetFor context) as [|r rules IH]; intros H; [reflexivity|].
  simpl in H. apply andb_true_iff in H as [H1 H2]. apply negb_true_iff in H1.
  simpl. destruct (convertPhrase_cases context acc r) as [[-> _] | (e & _ & E & _)].
  - apply IH, H2.
  - congruence.
Qed.

Lemma reschedule_converted context :
  convertText (js "リスケ") context
  = {| text := js "予定変更";
       conversions := [ wordEntry (js "リスケ") (js "スケジュール変更") 1;
                        wordEntry (js "スケジュール") (js "予定") 1 ];
       originalLength := 3; convertedLength := 4 |}.
Proof.
  unfold convertText.
  assert (convertWords (js "リスケ") []
          = (js "予定変更",
             [ wordEntry (js "リスケ") (js "スケジュール変更") 1;
               wordEntry (js "スケジュール") (js "予定") 1 ])) as ->
    by (vm_compute; reflexivity).
  unfold convertPhrases. rewrite phrases_untouched by (vm_compute; reflexivity).
  vm_compute. reflexivity.
Qed.



End ConverterClaims.
